(** * Content pipeline of the personal blog: model and properties

    The TypeScript sources modelled here are
    - the string utilities ([calculateReadingTime], [formatDate],
      [generateExcerpt], [sanitizeSlug], [sanitizeTags]),
    - the blog helpers of [src/utils/blog.ts] ([getPublishedBlogPosts],
      [calculateReadingTime]),
    - the content collection schema ([blogCollection]).

    A JavaScript string is a sequence of UTF-16 code units.  The model keeps
    the code units [0..255] (Latin-1), which is what [ascii] holds: on them
    [toLowerCase], [trim], [\s] and [\w] are written out exactly. *)

From stdpp Require Import base list strings gmap.
From Stdlib Require Import ZArith Ascii String List Lia.
From Stdlib Require Import Sorting.Sorted Sorting.Permutation.
From Stdlib Require QArith.

Open Scope Z_scope.

(** ** JavaScript strings *)

Module Js.

Abbreviation jsstring := (list ascii).

(** A string literal of the source. *)
Definition str (s : string) : jsstring := list_ascii_of_string s.

(** [charCodeAt] of a single code unit. *)
Definition code (c : ascii) : Z := Z.of_N (N_of_ascii c).

Definition fromCharCode (n : Z) : ascii := ascii_of_N (Z.to_N n).

Definition in_range (lo hi : Z) (c : ascii) : bool :=
  (lo <=? code c) && (code c <=? hi).

(** [a-z], [A-Z], [0-9] *)
Definition isLower (c : ascii) : bool := in_range 97 122 c.
Definition isUpper (c : ascii) : bool := in_range 65 90 c.
Definition isDigit (c : ascii) : bool := in_range 48 57 c.

Definition isChar (x : ascii) (c : ascii) : bool := Ascii.eqb c x.

(** [\s], which is also the set that [trim] removes: TAB, LF, VT, FF, CR,
    SPACE and NO-BREAK SPACE are its members below 256. *)
Definition isWhiteSpace (c : ascii) : bool :=
  in_range 9 13 c || (code c =? 32) || (code c =? 160).

(** [\w] is [A-Za-z0-9_]. *)
Definition isWordChar (c : ascii) : bool :=
  isLower c || isUpper c || isDigit c || isChar "_" c.

(** [String.prototype.toLowerCase] on one code unit: [A-Z] and the Latin-1
    capitals U+00C0..U+00DE (U+00D7, the multiplication sign, apart) move up
    by 32; every other code unit below 256 is its own lower case. *)
Definition toLowerCase_char (c : ascii) : ascii :=
  if isUpper c then fromCharCode (code c + 32)
  else if in_range 192 222 c && negb (code c =? 215)
       then fromCharCode (code c + 32)
       else c.

Definition toLowerCase (s : jsstring) : jsstring := map toLowerCase_char s.

(** [trimStart], [trimEnd], [trim] *)
Fixpoint trimStart (s : jsstring) : jsstring :=
  match s with
  | [] => []
  | c :: s' => if isWhiteSpace c then trimStart s' else s
  end.

Definition trimEnd (s : jsstring) : jsstring := rev (trimStart (rev s)).

Definition trim (s : jsstring) : jsstring := trimEnd (trimStart s).

(** Relative index of [slice]: a negative index counts from the end, and
    both are clamped to [0..len]. *)
Definition relIndex (len i : Z) : Z :=
  if i <? 0 then Z.max (len + i) 0 else Z.min i len.

(** [String.prototype.slice] and [Array.prototype.slice]. *)
Definition slice {A} (l : list A) (start end_ : Z) : list A :=
  let len := Z.of_nat (length l) in
  let from := relIndex len start in
  let to := relIndex len end_ in
  take (Z.to_nat (to - from)) (drop (Z.to_nat from) l).

(** [s.split(/\s+/)]: the pieces between the maximal runs of white space.
    The empty string gives one empty piece, and white space at either end
    gives an empty piece there. *)
Fixpoint split_ws (s : jsstring) : list jsstring :=
  match s with
  | [] => [[]]
  | c :: s' =>
      if isWhiteSpace c then
        match s' with
        | c' :: _ => if isWhiteSpace c' then split_ws s' else [] :: split_ws s'
        | [] => [] :: split_ws s'
        end
      else
        match split_ws s' with
        | p :: ps => (c :: p) :: ps
        | [] => [[c]]
        end
  end.

(** [s.lastIndexOf(c)] for a one-character search string; [-1] when [c]
    does not occur. *)
Fixpoint lastIndexOf_from (c : ascii) (s : jsstring) (i found : Z) : Z :=
  match s with
  | [] => found
  | x :: s' => lastIndexOf_from c s' (i + 1) (if Ascii.eqb x c then i else found)
  end.

Definition lastIndexOf (s : jsstring) (c : ascii) : Z :=
  lastIndexOf_from c s 0 (-1).

(** [a < b] and [a <= b] on strings: code unit by code unit. *)
Fixpoint str_ltb (a b : jsstring) : bool :=
  match a, b with
  | _, [] => false
  | [], _ :: _ => true
  | x :: a', y :: b' =>
      if code x <? code y then true
      else if code y <? code x then false
      else str_ltb a' b'
  end.

Definition str_leb (a b : jsstring) : bool := negb (str_ltb b a).

(** The values a frontmatter field or an array element may hold. *)
#[warnings="-register-all"]
Inductive value : Type :=
  | VUndefined
  | VNull
  | VBoolean (b : bool)
  | VNumber (n : Z)
  | VString (s : jsstring)
  | VDate (time : option Z)   (* [None] is the time value NaN *)
  | VArray (items : list value).

(** An [Error] object. *)
Record error : Type := Error { name : jsstring; message : jsstring }.

(** A settled promise. *)
Inductive promise (A : Type) : Type :=
  | Fulfilled (v : A)
  | Rejected (e : error).
Arguments Fulfilled {A} v.
Arguments Rejected {A} e.

(** [Array.prototype.sort] with a comparison function.  The sort is stable;
    with a consistent comparison function its result is the one stable
    sorted arrangement, computed here by insertion from the right: an
    element goes in front of the first one it does not come after. *)
Fixpoint insert {A} (cmp : A -> A -> Z) (x : A) (l : list A) : list A :=
  match l with
  | [] => [x]
  | y :: l' => if cmp x y <=? 0 then x :: l else y :: insert cmp x l'
  end.

Definition sort {A} (cmp : A -> A -> Z) (l : list A) : list A :=
  foldr (insert cmp) [] l.

(** The order a comparison function stands for: [a] may come before [b]. *)
Definition before {A} (cmp : A -> A -> Z) (a b : A) : Prop := cmp a b <= 0.

(** [a === b] on strings. *)
Fixpoint str_eqb (a b : jsstring) : bool :=
  match a, b with
  | [], [] => true
  | x :: a', y :: b' => Ascii.eqb x y && str_eqb a' b'
  | _, _ => false
  end.

End Js.

Import Js.

(** ** The utility module (reading time, dates, excerpts, slugs, tags) *)

Module Utils.

(** [calculateReadingTime]: at most the first 100000 characters count. *)
Definition maxContentLength : Z := 100000.
Definition wordsPerMinute : Z := 200.

(** [Math.ceil(a / b)] for a count [a >= 0] and [b > 0]. *)
Definition ceil_div (a b : Z) : Z := (a + b - 1) / b.

Definition calculateReadingTime (content : jsstring) : Z :=
  let safeContent := slice content 0 maxContentLength in
  let words := Z.of_nat (length (split_ws (trim safeContent))) in
  let readingTime := ceil_div words wordsPerMinute in
  Z.max 1 readingTime.

(** [formatDate].  [Date_parse] is the date parser behind [new Date(string)]
    and [toLocaleDateString] the [en-US] long-date formatter of the host;
    a time value is [Some] milliseconds, or [None] for NaN. *)
Inductive dateInput : Type :=
  | DateObject (time : option Z)
  | DateString (s : jsstring).

Section FormatDate.

Variable Date_parse : jsstring -> option Z.
Variable toLocaleDateString : Z -> jsstring.

Definition newDate (date : dateInput) : option Z :=
  match date with
  | DateString s => Date_parse s
  | DateObject t => t
  end.

(** The body of the [try] block: it throws on an invalid date. *)
Definition formatDate_try (date : dateInput) : error + jsstring :=
  let dateObj := newDate date in
  match dateObj with
  | None => inl (Error (str "Error") (str "Invalid date"))
  | Some t => inr (toLocaleDateString t)
  end.

(** The [catch] returns the sentinel for whatever was thrown. *)
Definition formatDate (date : dateInput) : jsstring :=
  match formatDate_try date with
  | inr s => s
  | inl _ => str "Invalid date"
  end.

End FormatDate.

(** [generateExcerpt] *)

(** [replace(/<[^>]*>/g, '')]: from a [<] up to the next [>]; a [<] with no
    [>] after it stays. *)
Fixpoint stripTags_from (inTag : bool) (s : jsstring) : jsstring :=
  match s with
  | [] => []
  | c :: s' =>
      if inTag then
        if isChar ">" c then stripTags_from false s' else stripTags_from true s'
      else if isChar "<" c && existsb (isChar ">") s' then stripTags_from true s'
      else c :: stripTags_from false s'
  end.

Definition stripTags (s : jsstring) : jsstring := stripTags_from false s.

(** The class [[\w\s.,!?-]] whose complement the second [replace] removes. *)
Definition isExcerptChar (c : ascii) : bool :=
  isWordChar c || isWhiteSpace c || isChar "." c || isChar "," c
  || isChar "!" c || isChar "?" c || isChar "-" c.

Definition ellipsis : jsstring := str "...".

Definition generateExcerpt (content : jsstring) (maxLength : Z) : jsstring :=
  let plainText := trim (List.filter isExcerptChar (stripTags content)) in
  if Z.of_nat (length plainText) <=? maxLength then plainText
  else
    let truncated := slice plainText 0 maxLength in
    let lastSpaceIndex := lastIndexOf truncated " " in
    if 0 <? lastSpaceIndex
    then slice truncated 0 lastSpaceIndex ++ ellipsis
    else truncated ++ ellipsis.

Definition defaultMaxLength : Z := 160.

(** [sanitizeSlug] *)

(** [[a-z0-9-]] *)
Definition isSlugChar (c : ascii) : bool :=
  isLower c || isDigit c || isChar "-" c.

(** [replace(/[^a-z0-9-]/g, '-')] *)
Definition replaceNonSlug (s : jsstring) : jsstring :=
  map (fun c => if isSlugChar c then c else "-"%char) s.

(** [replace(/-+/g, '-')] *)
Fixpoint collapseHyphens (s : jsstring) : jsstring :=
  match s with
  | [] => []
  | c :: s' =>
      if isChar "-" c then
        match s' with
        | c' :: _ => if isChar "-" c' then collapseHyphens s'
                     else c :: collapseHyphens s'
        | [] => [c]
        end
      else c :: collapseHyphens s'
  end.

(** [replace(/^-|-$/g, '')]: one hyphen at the start, and one at the end of
    what is left. *)
Definition dropLeadingHyphen (s : jsstring) : jsstring :=
  match s with
  | c :: s' => if isChar "-" c then s' else s
  | [] => []
  end.

Definition dropTrailingHyphen (s : jsstring) : jsstring :=
  rev (dropLeadingHyphen (rev s)).

Definition stripEdgeHyphens (s : jsstring) : jsstring :=
  dropTrailingHyphen (dropLeadingHyphen s).

Definition sanitizeSlug (slug : jsstring) : jsstring :=
  stripEdgeHyphens (collapseHyphens (replaceNonSlug (toLowerCase slug))).

(** [sanitizeTags] *)

Definition isNonBlankString (tag : value) : bool :=
  match tag with
  | VString s => 0 <? Z.of_nat (length (trim s))
  | _ => false
  end.

(** [tag.trim().toLowerCase()]; the first filter leaves strings only. *)
Definition normalizeTag (tag : value) : jsstring :=
  match tag with
  | VString s => toLowerCase (trim s)
  | _ => []
  end.

(** [/^[a-z0-9-\s]+$/i.test(tag)]: with the [i] flag the class also takes
    [A-Z]; no other code unit folds onto a member of the class. *)
Definition isTagChar_i (c : ascii) : bool :=
  isLower c || isUpper c || isDigit c || isChar "-" c || isWhiteSpace c.

Definition tagPattern_i (tag : jsstring) : bool :=
  match tag with
  | [] => false
  | _ => forallb isTagChar_i tag
  end.

Definition maxTags : Z := 10.

Definition sanitizeTags (tags : list value) : list jsstring :=
  slice
    (List.filter tagPattern_i
       (map normalizeTag (List.filter isNonBlankString tags)))
    0 maxTags.

End Utils.

(** ** The content collection schema *)

Module Schema.

(** The entry data the schema produces. *)
Record BlogData : Type := {
  title : jsstring;
  description : jsstring;
  publishDate : Z;            (* time value of a valid [Date] *)
  author : jsstring;
  tags : list jsstring;
  image : option jsstring;
  draft : bool
}.

(** The type names zod reports in an issue. *)
Inductive ZodParsedType : Type :=
  | t_undefined | t_null | t_boolean | t_number | t_string | t_date | t_array.

Definition getParsedType (v : value) : ZodParsedType :=
  match v with
  | VUndefined => t_undefined
  | VNull => t_null
  | VBoolean _ => t_boolean
  | VNumber _ => t_number
  | VString _ => t_string
  | VDate _ => t_date
  | VArray _ => t_array
  end.

Inductive ZodIssueCode : Type :=
  | invalid_type (expected received : ZodParsedType)
  | invalid_date.

Inductive pathSegment : Type :=
  | Key (k : string)
  | Index (i : nat).

Record ZodIssue : Type := { code : ZodIssueCode; path : list pathSegment }.

(** A parser gives the issues it found and, when there are none, a value. *)
Definition parsed (A : Type) : Type := (list ZodIssue * option A)%type.

Definition ok {A} (a : A) : parsed A := ([], Some a).
Definition fail {A} (c : ZodIssueCode) (p : list pathSegment) : parsed A :=
  ([ {| code := c; path := p |} ], None).

(** [z.string()] takes every string, the empty one too. *)
Definition z_string (p : list pathSegment) (v : value) : parsed jsstring :=
  match v with
  | VString s => ok s
  | _ => fail (invalid_type t_string (getParsedType v)) p
  end.

(** [z.date()]: a [Date] whose time value is not NaN. *)
Definition z_date (p : list pathSegment) (v : value) : parsed Z :=
  match v with
  | VDate (Some t) => ok t
  | VDate None => fail invalid_date p
  | _ => fail (invalid_type t_date (getParsedType v)) p
  end.

Definition z_boolean (p : list pathSegment) (v : value) : parsed bool :=
  match v with
  | VBoolean b => ok b
  | _ => fail (invalid_type t_boolean (getParsedType v)) p
  end.

(** [z.array(item)]: every element is parsed, under its index. *)
Fixpoint z_array_items {A} (item : list pathSegment -> value -> parsed A)
    (p : list pathSegment) (i : nat) (l : list value) : parsed (list A) :=
  match l with
  | [] => ok []
  | v :: l' =>
      let '(is1, r1) := item (p ++ [Index i]) v in
      let '(is2, r2) := z_array_items item p (S i) l' in
      (is1 ++ is2,
       match r1, r2 with
       | Some a, Some rest => Some (a :: rest)
       | _, _ => None
       end)
  end.

Definition z_array {A} (item : list pathSegment -> value -> parsed A)
    (p : list pathSegment) (v : value) : parsed (list A) :=
  match v with
  | VArray l => z_array_items item p 0%nat l
  | _ => fail (invalid_type t_array (getParsedType v)) p
  end.

(** [.default(d)] and [.optional()] act on [undefined] only. *)
Definition z_default {A} (d : A) (inner : list pathSegment -> value -> parsed A)
    (p : list pathSegment) (v : value) : parsed A :=
  match v with
  | VUndefined => ok d
  | _ => inner p v
  end.

Definition z_optional {A} (inner : list pathSegment -> value -> parsed A)
    (p : list pathSegment) (v : value) : parsed (option A) :=
  match v with
  | VUndefined => ok None
  | _ => let '(issues, r) := inner p v in (issues, option_map Some r)
  end.

(** Reading a property of the frontmatter object: [undefined] when absent. *)
Definition prop (raw : gmap string value) (k : string) : value :=
  match raw !! k with
  | Some v => v
  | None => VUndefined
  end.

Definition field {A} (parser : list pathSegment -> value -> parsed A)
    (raw : gmap string value) (k : string) : parsed A :=
  parser [Key k] (prop raw k).

(** The [z.object] of [blogCollection], field by field in its order; the
    issues of all fields are reported together. *)
Definition blogSchema (raw : gmap string value) : list ZodIssue + BlogData :=
  let '(i1, r_title) := field z_string raw "title" in
  let '(i2, r_description) := field z_string raw "description" in
  let '(i3, r_publishDate) := field z_date raw "publishDate" in
  let '(i4, r_author) := field z_string raw "author" in
  let '(i5, r_tags) := field (z_default [] (z_array z_string)) raw "tags" in
  let '(i6, r_image) := field (z_optional z_string) raw "image" in
  let '(i7, r_draft) := field (z_default false z_boolean) raw "draft" in
  match r_title, r_description, r_publishDate, r_author, r_tags, r_image, r_draft with
  | Some t, Some d, Some p, Some a, Some tg, Some im, Some dr =>
      inr {| title := t; description := d; publishDate := p; author := a;
             tags := tg; image := im; draft := dr |}
  | _, _, _, _, _, _, _ => inl (i1 ++ i2 ++ i3 ++ i4 ++ i5 ++ i6 ++ i7)
  end.

End Schema.

(** ** The blog helpers of [src/utils/blog.ts] *)

Module Blog.

Import Schema.

(** A [CollectionEntry<'blog'>]. *)
Record BlogPost : Type := {
  id : jsstring;
  slug : jsstring;
  body : jsstring;
  data : BlogData
}.

(** [getCollection('blog', filter)] over the entries of the collection. *)
Definition getCollection (collection : list BlogPost)
    (keep : BlogPost -> bool) : list BlogPost :=
  List.filter keep collection.

(** [new Date(d).getTime()] of a valid date is its time value. *)
Definition getTime (p : BlogPost) : Z := publishDate (data p).

(** The comparison function of the sort.  Time values are integers below
    2^53 in size, so the sign of the floating-point difference is the sign
    of the integer difference. *)
Definition byPublishDateDesc (a b : BlogPost) : Z := getTime b - getTime a.

Definition getPublishedBlogPosts (collection : list BlogPost)
    : promise (list BlogPost) :=
  let posts := getCollection collection (fun p => negb (draft (data p))) in
  Fulfilled (sort byPublishDateDesc posts).

(** [calculateReadingTime] of this module: no length limit, no minimum. *)
Definition calculateReadingTime (content : jsstring) : Z :=
  let wordsPerMinute := 200 in
  let words := Z.of_nat (length (split_ws (trim content))) in
  Utils.ceil_div words wordsPerMinute.

(** [getBlogPostBySlug]: [getCollection('blog')] with no filter gives every
    entry, the drafts too; [find] gives the first match or [undefined]. *)
Definition getBlogPostBySlug (collection : list BlogPost) (slug_ : jsstring)
    : promise (option BlogPost) :=
  let posts := getCollection collection (fun _ => true) in
  Fulfilled (List.find (fun post => str_eqb (slug post) slug_) posts).

End Blog.

(** ** The content loader *)

Module Content.

Import Schema Blog.





End Content.

(** ** The site configuration ([src/config/site.ts]) *)

Module Site.

(** What [isValidUrl] reads of a parsed [URL]. *)
Record URL : Type := { protocol : jsstring }.

Record Social : Type := {
  twitter : option jsstring;
  github : option jsstring;
  linkedin : option jsstring;
  email : option jsstring
}.

Record SiteConfig : Type := {
  title : jsstring;
  description : jsstring;
  author : jsstring;
  url : jsstring;
  social : Social
}.

Definition SITE_CONFIG : SiteConfig :=
  {| title := str "Personal Blog";
     description :=
       str "A modern, secure blog built with Astro and TypeScript";
     author := str "Blog Author";
     url := str "https://your-blog-domain.com";
     social :=
       {| twitter := Some (str "https://twitter.com/yourusername");
          github := Some (str "https://github.com/yourusername");
          linkedin := Some (str "https://linkedin.com/in/yourusername");
          email := Some (str "your-email@example.com") |} |}.

(** [Object.entries(social)]: the keys in the order of the object. *)
Definition entries (s : Social) : list (jsstring * option jsstring) :=
  [(str "twitter", twitter s); (str "github", github s);
   (str "linkedin", linkedin s); (str "email", email s)].

(** [array.includes(x)] on strings. *)
Definition includes (l : list jsstring) (x : jsstring) : bool :=
  existsb (fun y => str_eqb y x) l.

(** [toUpperCase] on the first character of a key of [social]; the keys
    are ASCII, where [a-z] move down by 32 and nothing else changes. *)
Definition toUpperCase_key (s : jsstring) : jsstring :=
  map (fun c => if isLower c then fromCharCode (code c - 32) else c) s.

(** A link of the result; [link_url] is its [url], named apart from the
    [url] of the site. *)
Record SocialLink : Type := {
  platform : jsstring;
  link_url : jsstring;
  label : jsstring
}.

Section Links.

(** [new URL(url)]: the parsed URL, or [None] when the constructor throws. *)
Variable URL_parse : jsstring -> option URL.

Definition isValidUrl (u : jsstring) : bool :=
  match URL_parse u with
  | Some parsedUrl => includes [str "http:"; str "https:"] (protocol parsedUrl)
  | None => false
  end.

(** [url && isValidUrl(url)]: [undefined] and the empty string are falsy. *)
Definition keepEntry (e : jsstring * option jsstring) : bool :=
  match snd e with
  | Some u => negb (Nat.eqb (length u) 0) && isValidUrl u
  | None => false
  end.

Definition toLink (e : jsstring * option jsstring) : SocialLink :=
  let platform_ := fst e in
  {| platform := platform_;
     link_url := match snd e with Some u => u | None => [] end;
     label := str "Follow on "
              ++ toUpperCase_key (slice platform_ 0 1)
              ++ slice platform_ 1 (Z.of_nat (length platform_)) |}.

Definition getSanitizedSocialLinks (config : SiteConfig) : list SocialLink :=
  map toLink (List.filter keepEntry (entries (social config))).

End Links.

End Site.

(** ** Core Web Vitals ratings ([src/utils/web-vitals.ts]) *)

Module WebVitals.

Import QArith_base.

(** A number: a double is a rational, NaN or an infinity. *)
Inductive number : Type :=
  | NaN
  | NegInfinity
  | Finite (q : Q)
  | PosInfinity.

Inductive WebVitalName : Type := LCP | FID | CLS | FCP | TTFB | INP.

Record Thresholds : Type := { good : Q; needsImprovement : Q }.

(** The double nearest to [0.1]. *)
Definition double_0_1 : Q := Qmake 3602879701896397 36028797018963968.

Definition WEB_VITALS_THRESHOLDS (name : WebVitalName) : Thresholds :=
  match name with
  | LCP => {| good := Qmake 2500 1; needsImprovement := Qmake 4000 1 |}
  | FID => {| good := Qmake 100 1; needsImprovement := Qmake 300 1 |}
  | CLS => {| good := double_0_1; needsImprovement := Qmake 1 4 |}
  | FCP => {| good := Qmake 1800 1; needsImprovement := Qmake 3000 1 |}
  | TTFB => {| good := Qmake 800 1; needsImprovement := Qmake 1800 1 |}
  | INP => {| good := Qmake 200 1; needsImprovement := Qmake 500 1 |}
  end.

(** [value <= threshold]: false for NaN. *)
Definition number_leb (value : number) (threshold : Q) : bool :=
  match value with
  | NaN => false
  | NegInfinity => true
  | Finite q => Qle_bool q threshold
  | PosInfinity => false
  end.

Inductive Rating : Type := rating_good | rating_needs_improvement | rating_poor.

Definition getRating (name : WebVitalName) (value : number) : Rating :=
  let thresholds := WEB_VITALS_THRESHOLDS name in
  if number_leb value (good thresholds) then rating_good
  else if number_leb value (needsImprovement thresholds)
       then rating_needs_improvement
       else rating_poor.

(** Good before needs-improvement before poor. *)
Definition rank (r : Rating) : Z :=
  match r with
  | rating_good => 0
  | rating_needs_improvement => 1
  | rating_poor => 2
  end.

End WebVitals.

(** Regular expressions and orders that the properties below speak of. *)

Module Props.

Import Utils.

(** [[a-z0-9]] *)
Definition isAlnumLower (c : ascii) : bool := isLower c || isDigit c.

(** [[a-z0-9-]*[a-z0-9]] *)
Fixpoint slugTail (s : jsstring) : bool :=
  match s with
  | [] => false
  | c :: s' =>
      match s' with
      | [] => isAlnumLower c
      | _ :: _ => isSlugChar c && slugTail s'
      end
  end.

(** [/^[a-z0-9]([a-z0-9-]*[a-z0-9])?$|^$/.test(s)] *)
Definition slugPattern (s : jsstring) : bool :=
  match s with
  | [] => true
  | c :: s' =>
      isAlnumLower c && match s' with [] => true | _ :: _ => slugTail s' end
  end.

(** No two hyphens in a row. *)
Fixpoint noDoubleHyphen (s : jsstring) : bool :=
  match s with
  | [] => true
  | c :: s' =>
      match s' with
      | [] => true
      | c' :: _ => negb (isChar "-" c && isChar "-" c') && noDoubleHyphen s'
      end
  end.

Definition startsWithHyphen (s : jsstring) : bool :=
  match s with
  | c :: _ => isChar "-" c
  | [] => false
  end.

Fixpoint endsWithHyphen (s : jsstring) : bool :=
  match s with
  | [] => false
  | c :: s' => match s' with [] => isChar "-" c | _ :: _ => endsWithHyphen s' end
  end.

(** The slugs that [sanitizeSlug] produces, and leaves as they are. *)
Definition canonicalSlug (s : jsstring) : bool :=
  forallb isSlugChar s && noDoubleHyphen s
  && negb (startsWithHyphen s) && negb (endsWithHyphen s).

(** *** Reading time, as the specification words it

    Words are counted the way [wc] counts them: a word starts at every
    character that is no white space and follows white space or the start. *)
Fixpoint countWords_from (inWord : bool) (s : jsstring) : nat :=
  match s with
  | [] => 0%nat
  | c :: s' =>
      if isWhiteSpace c then countWords_from false s'
      else ((if inWord then 0 else 1) + countWords_from true s')%nat
  end.

Definition countWords (s : jsstring) : nat := countWords_from false s.

(** Truncate to 100000 characters, count the words between white space
    runs, divide by 200 words a minute, round up, and take at least 1. *)
Definition readingTime_ref (body : jsstring) : Z :=
  let truncated := take (Z.to_nat 100000) body in
  let words := Z.of_nat (countWords truncated) in
  let minutes := (words + 199) / 200 in
  if minutes <? 1 then 1 else minutes.

(** [words.join(sep)] *)
Fixpoint join (sep : jsstring) (words : list jsstring) : jsstring :=
  match words with
  | [] => []
  | w :: rest =>
      match rest with
      | [] => w
      | _ :: _ => w ++ sep ++ join sep rest
      end
  end.

(** A word: not empty, and no white space in it. *)
Definition isWord (w : jsstring) : bool :=
  negb (Nat.eqb (length w) 0) && forallb (fun c => negb (isWhiteSpace c)) w.

Definition startsWithSpace (s : jsstring) : bool :=
  match s with
  | c :: _ => isWhiteSpace c
  | [] => false
  end.

Fixpoint endsWithSpace (s : jsstring) : bool :=
  match s with
  | [] => false
  | c :: s' =>
      match s' with [] => isWhiteSpace c | _ :: _ => endsWithSpace s' end
  end.

(** *** Tag normalization, as the specification words it *)

(** [[a-z0-9-\s]] *)
Definition isTagChar (c : ascii) : bool :=
  isLower c || isDigit c || isChar "-" c || isWhiteSpace c.

(** [/^[a-z0-9-\s]+$/.test(tag)] *)
Definition tagPattern (tag : jsstring) : bool :=
  negb (Nat.eqb (length tag) 0) && forallb isTagChar tag.

(** One entry: a string that is not blank, trimmed and lowercased, kept when
    it matches the pattern. *)
Definition normalizeTag_ref (tag : value) : option jsstring :=
  match tag with
  | VString s =>
      match trim s with
      | [] => None
      | t => let l := toLowerCase t in
             if tagPattern l then Some l else None
      end
  | _ => None
  end.

(** The first 10 of the entries that are kept, in their order. *)
Definition sanitizeTags_ref (tags : list value) : list jsstring :=
  take 10 (omap normalizeTag_ref tags).

Definition isValidTag (tag : value) : bool :=
  match normalizeTag_ref tag with Some _ => true | None => false end.

(** *** The assembled collection *)

Import Schema Blog.

Definition isPublished (p : BlogPost) : bool := negb (draft (data p)).

(** Newest first. *)
Definition newestFirst (a b : BlogPost) : Prop := getTime b <= getTime a.

(** Newest first, and by identifier among the posts of one date. *)
Definition newestFirstThenIdentifier (a b : BlogPost) : Prop :=
  getTime b < getTime a
  \/ (getTime a = getTime b /\ str_leb (id a) (id b) = true).

Definition sameDate (d : Z) (p : BlogPost) : bool := getTime p =? d.

(** An error names an identifier when its message holds it. *)
Definition namesIdentifier (e : error) (ident : jsstring) : Prop :=
  exists before after, message e = before ++ ident ++ after.

Definition isCollectionError (e : error) (a b : jsstring) : Prop :=
  name e = str "CollectionError"
  /\ namesIdentifier e a /\ namesIdentifier e b.

(** Two published records with one slug make the assembly fail. *)
Definition duplicateSlugFatal (collection : list BlogPost) : Prop :=
  forall a b,
    In a collection -> In b collection -> id a <> id b ->
    draft (data a) = false -> draft (data b) = false ->
    sanitizeSlug (id a) = sanitizeSlug (id b) ->
    exists e, getPublishedBlogPosts collection = Rejected e
              /\ isCollectionError e (id a) (id b).

(** The output is ordered newest first, ties by identifier. *)
Definition sortedWithIdentifierTieBreak (collection : list BlogPost) : Prop :=
  exists posts,
    getPublishedBlogPosts collection = Fulfilled posts
    /\ StronglySorted newestFirstThenIdentifier posts.

(** *** Schema validation *)




(** *** Markup *)

(** A [<] with a [>] somewhere after it: what [/<[^>]*>/] matches. *)
Fixpoint hasTag (s : jsstring) : bool :=
  match s with
  | [] => false
  | c :: s' => (isChar "<" c && existsb (isChar ">") s') || hasTag s'
  end.

(** The characters that open markup or an attribute: [<], [>], [&] and the
    two quotes. *)
Definition markupChars : list ascii :=
  ["<"; ">"; "&"; "034"; "039"]%char.

Definition isMarkupChar (c : ascii) : bool := existsb (Ascii.eqb c) markupChars.

(** *** Lookup and order of posts *)

(** Strictly newer: the order of posts with distinct dates. *)
Definition strictlyNewer (a b : BlogPost) : Prop := getTime b < getTime a.

(** *** What the schema takes *)

Definition schemaKeys : list string :=
  ["title"; "description"; "publishDate"; "author"; "tags"; "image"; "draft"].

(** The input a field of the output comes from: the value itself, or the
    default for [undefined]. *)
Definition tagsFrom (v : value) (l : list jsstring) : Prop :=
  (v = VUndefined /\ l = []) \/ v = VArray (map VString l).

Definition imageFrom (v : value) (o : option jsstring) : Prop :=
  (v = VUndefined /\ o = None) \/ exists s, v = VString s /\ o = Some s.

Definition draftFrom (v : value) (b : bool) : Prop :=
  (v = VUndefined /\ b = false) \/ v = VBoolean b.

(** *** Entries that do not validate *)




(** *** Calendar dates *)

Definition isLeapYear (y : Z) : bool :=
  ((y mod 4 =? 0) && negb (y mod 100 =? 0)) || (y mod 400 =? 0).

Definition daysInMonth (y m : Z) : Z :=
  if m =? 2 then (if isLeapYear y then 29 else 28)
  else if (m =? 4) || (m =? 6) || (m =? 9) || (m =? 11) then 30
  else 31.

(** Day [d] of month [m] of year [y] is a day of the calendar. *)
Definition isCalendarDate (y m d : Z) : bool :=
  (1 <=? m) && (m <=? 12) && (1 <=? d) && (d <=? daysInMonth y m).

Fixpoint digits (acc : Z) (s : jsstring) : option Z :=
  match s with
  | [] => Some acc
  | c :: s' => if isDigit c then digits (10 * acc + (Js.code c - 48)) s' else None
  end.

(** The year, month and day that a string of the form [YYYY-MM-DD] writes. *)
Definition isoDateOnly (s : jsstring) : option (Z * Z * Z) :=
  match s with
  | [y1; y2; y3; y4; h1; m1; m2; h2; d1; d2] =>
      if isChar "-" h1 && isChar "-" h2 then
        match digits 0 [y1; y2; y3; y4], digits 0 [m1; m2], digits 0 [d1; d2]
        with
        | Some y, Some m, Some d => Some (y, m, d)
        | _, _, _ => None
        end
      else None
  | _ => None
  end.

End Props.


(** Concrete inputs of the examples below. *)

Module Examples.

Import Utils Props.

(** 400 words of 500 characters each, and 400 words of 4. *)
Definition long_words : list jsstring := repeat (repeat "a"%char 500) 400.
Definition short_words : list jsstring := repeat (str "word") 400.

(** A hundred [a], a line feed, a hundred [b]: two words and no space. *)
Definition two_lines : jsstring :=
  repeat "a"%char 100 ++ ["010"%char] ++ repeat "b"%char 100.

(** A post with the given identifier, date and draft flag. *)
Definition post (ident : string) (date : Z) (isDraft : bool) : Blog.BlogPost :=
  {| Blog.id := str ident;
     Blog.slug := sanitizeSlug (str ident);
     Blog.body := str "Some text.";
     Blog.data :=
       {| Schema.title := str ident;
          Schema.description := str "A post";
          Schema.publishDate := date;
          Schema.author := str "Author";
          Schema.tags := [];
          Schema.image := None;
          Schema.draft := isDraft |} |}.

(** Midnight UTC of 2024-01-15, 2024-01-20 and 2024-01-25. *)
Definition jan15 : Z := 1705276800000.
Definition jan20 : Z := 1705708800000.
Definition jan25 : Z := 1706140800000.

(** Two identifiers with the slug [hello-world-md]. *)
Definition same_slug_posts : list Blog.BlogPost :=
  [post "Hello World.md" jan15 false; post "hello-world.md" jan20 false].

(** Two posts of one date, the later identifier first. *)
Definition same_date_posts : list Blog.BlogPost :=
  [post "zebra.md" jan15 false; post "apple.md" jan15 false].

Definition three_posts : list Blog.BlogPost :=
  [post "first.md" jan15 false; post "second.md" jan20 false;
   post "third.md" jan25 false].

Definition with_draft : list Blog.BlogPost :=
  [post "first.md" jan15 false; post "wip.md" jan25 true].

(** Frontmatter with a blank title, and frontmatter with no title. *)
Definition blank_title : gmap string value :=
  list_to_map
    [("title", VString (str "   "));
     ("description", VString (str "A post"));
     ("publishDate", VDate (Some jan15));
     ("author", VString (str "Author"))].


Definition eleven_tags : list value :=
  map (fun s => VString (str s))
    ["Astro"; "Web-Design"; "css"; " TypeScript "; "a11y"; "static sites";
     "performance"; "seo"; "testing"; "deploy"; "CDN"].


(** 50000 one-letter words, each followed by a space: 100000 characters. *)
Definition short_word_body : jsstring :=
  concat (repeat (str "a ") (Z.to_nat 50000)).


Definition draft_and_published : list Blog.BlogPost :=
  [post "first.md" jan15 false; post "wip.md" jan25 true;
   post "second.md" jan20 false].


(** Frontmatter with the date as a string, with a number among the tags, and
    with a key the schema does not know. *)
Definition string_date : gmap string value :=
  <["publishDate" := VString (str "2024-01-15")]> blank_title.

Definition number_tag : gmap string value :=
  <["tags" := VArray [VString (str "astro"); VNumber 2024]]> blank_title.


(** The 30th of February 2024, and midnight UTC of 2024-03-01. *)
Definition feb30 : jsstring := str "2024-02-30".
Definition march1 : Z := 1709251200000.




End Examples.

Import Utils Schema Blog Props Examples.

(** * Properties *)

(** ** Code units *)

Ltac ascii_cases c :=
  destruct c as [[] [] [] [] [] [] [] []]; vm_compute;
  try reflexivity; try discriminate; auto.

Lemma toLowerCase_char_slug c : isSlugChar c = true -> toLowerCase_char c = c.
Proof. ascii_cases c. Qed.

Lemma slug_not_hyphen_alnum c :
  isSlugChar c = true -> isChar "-" c = false -> isAlnumLower c = true.
Proof. ascii_cases c. Qed.

Lemma alnum_slug c : isAlnumLower c = true -> isSlugChar c = true.
Proof. ascii_cases c. Qed.

Lemma hyphen_slug c : isChar "-" c = true -> isSlugChar c = true.
Proof. ascii_cases c. Qed.

Lemma isChar_eq x c : isChar x c = true -> c = x.
Proof. unfold isChar. apply Ascii.eqb_eq. Qed.

Lemma isChar_refl x : isChar x x = true.
Proof. unfold isChar. apply Ascii.eqb_refl. Qed.

(** ** [sanitizeSlug] *)

Section Slug.

Local Arguments isChar : simpl never.
Local Arguments isSlugChar : simpl never.
Local Arguments isAlnumLower : simpl never.

Lemma toLowerCase_slug s :
  forallb isSlugChar s = true -> toLowerCase s = s.
Proof.
  unfold toLowerCase. induction s as [|c s IH]; simpl; [reflexivity|].
  intros [Hc Hs]%andb_prop. rewrite toLowerCase_char_slug, IH; auto.
Qed.

Lemma replaceNonSlug_all s : forallb isSlugChar (replaceNonSlug s) = true.
Proof.
  unfold replaceNonSlug. induction s as [|c s IH]; simpl; [reflexivity|].
  rewrite IH, andb_true_r. destruct (isSlugChar c) eqn:E; [exact E|reflexivity].
Qed.

Lemma replaceNonSlug_id s :
  forallb isSlugChar s = true -> replaceNonSlug s = s.
Proof.
  unfold replaceNonSlug. induction s as [|c s IH]; simpl; [reflexivity|].
  intros [Hc Hs]%andb_prop. rewrite Hc, IH; auto.
Qed.

Lemma collapseHyphens_cons c s :
  collapseHyphens (c :: s) =
  if isChar "-" c && startsWithHyphen s then collapseHyphens s
  else c :: collapseHyphens s.
Proof.
  simpl. destruct (isChar "-" c); simpl; [|reflexivity].
  destruct s as [|c' s]; simpl; [reflexivity|].
  destruct (isChar "-" c'); reflexivity.
Qed.

Lemma collapseHyphens_starts s :
  startsWithHyphen (collapseHyphens s) = startsWithHyphen s.
Proof.
  induction s as [|c s IH]; [reflexivity|].
  rewrite collapseHyphens_cons.
  destruct (isChar "-" c) eqn:Ec, (startsWithHyphen s) eqn:Es; simpl;
    rewrite ?Ec; auto.
Qed.

Lemma collapseHyphens_all s :
  forallb isSlugChar s = true -> forallb isSlugChar (collapseHyphens s) = true.
Proof.
  induction s as [|c s IH]; [reflexivity|].
  rewrite collapseHyphens_cons. simpl. intros [Hc Hs]%andb_prop.
  destruct (isChar "-" c && startsWithHyphen s); simpl; rewrite ?Hc; auto.
Qed.

Lemma noDoubleHyphen_cons c s :
  noDoubleHyphen (c :: s) =
  negb (isChar "-" c && startsWithHyphen s) && noDoubleHyphen s.
Proof.
  destruct s as [|c' s]; simpl; [|reflexivity].
  rewrite andb_false_r. reflexivity.
Qed.

Lemma collapseHyphens_noDouble s : noDoubleHyphen (collapseHyphens s) = true.
Proof.
  induction s as [|c s IH]; [reflexivity|].
  rewrite collapseHyphens_cons.
  destruct (isChar "-" c && startsWithHyphen s) eqn:E; [exact IH|].
  rewrite noDoubleHyphen_cons, collapseHyphens_starts, E, IH. reflexivity.
Qed.

Lemma collapseHyphens_id s :
  noDoubleHyphen s = true -> collapseHyphens s = s.
Proof.
  induction s as [|c s IH]; [reflexivity|].
  rewrite collapseHyphens_cons, noDoubleHyphen_cons.
  intros [Hc Hs]%andb_prop. apply negb_true_iff in Hc.
  rewrite Hc, IH; auto.
Qed.

(** The hyphen at the end, by recursion from the front. *)
Lemma dropTrailingHyphen_cons c s :
  dropTrailingHyphen (c :: s) =
  match s with
  | [] => if isChar "-" c then [] else [c]
  | _ :: _ => c :: dropTrailingHyphen s
  end.
Proof.
  unfold dropTrailingHyphen. destruct s as [|c' s]; simpl.
  - destruct (isChar "-" c); reflexivity.
  - destruct (rev s ++ [c']) as [|x l] eqn:E.
    + destruct (rev s); discriminate E.
    + simpl. destruct (isChar "-" x).
      * rewrite rev_app_distr. reflexivity.
      * simpl. rewrite rev_app_distr. reflexivity.
Qed.

Lemma dropTrailingHyphen_nil s :
  dropTrailingHyphen s = [] -> s = [] \/ startsWithHyphen s = true /\ tl s = [].
Proof.
  destruct s as [|c s]; [auto|]. rewrite dropTrailingHyphen_cons.
  destruct s; [|discriminate]. simpl.
  destruct (isChar "-" c); [auto|discriminate].
Qed.

Lemma dropTrailingHyphen_starts s :
  startsWithHyphen (dropTrailingHyphen s) = true -> startsWithHyphen s = true.
Proof.
  destruct s as [|c s]; [auto|]. rewrite dropTrailingHyphen_cons.
  destruct s; simpl; [|auto].
  destruct (isChar "-" c) eqn:E; simpl; congruence.
Qed.

Lemma dropTrailingHyphen_all s :
  forallb isSlugChar s = true ->
  forallb isSlugChar (dropTrailingHyphen s) = true.
Proof.
  induction s as [|c s IH]; [auto|]. rewrite dropTrailingHyphen_cons.
  intros [Hc Hs]%andb_prop. destruct s as [|c' s].
  - destruct (isChar "-" c); simpl; rewrite ?Hc; auto.
  - simpl forallb at 1. fold (forallb isSlugChar). rewrite Hc, IH; auto.
Qed.

Lemma dropTrailingHyphen_noDouble s :
  noDoubleHyphen s = true -> noDoubleHyphen (dropTrailingHyphen s) = true.
Proof.
  induction s as [|c s IH]; [auto|]. rewrite dropTrailingHyphen_cons.
  rewrite noDoubleHyphen_cons. intros [Hc Hs]%andb_prop.
  destruct s as [|c' s].
  - destruct (isChar "-" c); reflexivity.
  - rewrite noDoubleHyphen_cons, IH, andb_true_r by exact Hs.
    apply negb_true_iff. apply negb_true_iff in Hc.
    destruct (isChar "-" c); [|reflexivity]. simpl in *.
    destruct (startsWithHyphen (dropTrailingHyphen (c' :: s))) eqn:E;
      [|reflexivity].
    apply dropTrailingHyphen_starts in E. simpl in E. congruence.
Qed.

Lemma dropTrailingHyphen_ends s :
  noDoubleHyphen s = true -> endsWithHyphen (dropTrailingHyphen s) = false.
Proof.
  induction s as [|c s IH]; [auto|]. rewrite dropTrailingHyphen_cons.
  rewrite noDoubleHyphen_cons. intros [Hc Hs]%andb_prop.
  destruct s as [|c' s].
  - destruct (isChar "-" c) eqn:E; simpl; auto.
  - specialize (IH Hs).
    destruct (dropTrailingHyphen (c' :: s)) as [|x r] eqn:E.
    + apply dropTrailingHyphen_nil in E as [E|[E _]]; [discriminate|].
      rewrite E, andb_true_r in Hc. simpl. now apply negb_true_iff in Hc.
    + exact IH.
Qed.

Lemma dropTrailingHyphen_id s :
  endsWithHyphen s = false -> dropTrailingHyphen s = s.
Proof.
  induction s as [|c s IH]; [auto|]. rewrite dropTrailingHyphen_cons.
  destruct s as [|c' s]; simpl.
  - intros ->. reflexivity.
  - intros H. f_equal. apply IH. exact H.
Qed.

Lemma dropLeadingHyphen_props s :
  forallb isSlugChar s = true -> noDoubleHyphen s = true ->
  forallb isSlugChar (dropLeadingHyphen s) = true
  /\ noDoubleHyphen (dropLeadingHyphen s) = true
  /\ startsWithHyphen (dropLeadingHyphen s) = false.
Proof.
  destruct s as [|c s]; [auto|]. rewrite noDoubleHyphen_cons.
  simpl forallb. intros [Hc Hs]%andb_prop [Hn Hd]%andb_prop.
  unfold dropLeadingHyphen. destruct (isChar "-" c) eqn:E.
  - simpl in Hn. apply negb_true_iff in Hn. auto.
  - rewrite noDoubleHyphen_cons, E, Hd. simpl. rewrite Hc, Hs, E. auto.
Qed.

(** [sanitizeSlug] gives a canonical slug, and a canonical slug is a fixed
    point of [sanitizeSlug]. *)
Lemma sanitizeSlug_canonical s : canonicalSlug (sanitizeSlug s) = true.
Proof.
  unfold sanitizeSlug, stripEdgeHyphens, canonicalSlug.
  set (t := collapseHyphens (replaceNonSlug (toLowerCase s))).
  assert (Ha : forallb isSlugChar t = true)
    by apply collapseHyphens_all, replaceNonSlug_all.
  assert (Hd : noDoubleHyphen t = true) by apply collapseHyphens_noDouble.
  destruct (dropLeadingHyphen_props t Ha Hd) as (Ha' & Hd' & Hs').
  rewrite dropTrailingHyphen_all, dropTrailingHyphen_noDouble,
    dropTrailingHyphen_ends by assumption.
  destruct (startsWithHyphen (dropTrailingHyphen (dropLeadingHyphen t))) eqn:E;
    [|reflexivity].
  apply dropTrailingHyphen_starts in E. congruence.
Qed.

Lemma canonicalSlug_fixed s : canonicalSlug s = true -> sanitizeSlug s = s.
Proof.
  unfold canonicalSlug.
  intros [[[Ha Hd]%andb_prop Hs]%andb_prop He]%andb_prop.
  apply negb_true_iff in Hs, He.
  unfold sanitizeSlug, stripEdgeHyphens.
  rewrite toLowerCase_slug, replaceNonSlug_id, collapseHyphens_id by assumption.
  assert (Hl : dropLeadingHyphen s = s).
  { destruct s as [|c s]; [reflexivity|]. simpl in *. now rewrite Hs. }
  rewrite Hl. now apply dropTrailingHyphen_id.
Qed.

Lemma slugTail_ok s :
  s <> [] -> forallb isSlugChar s = true -> endsWithHyphen s = false ->
  slugTail s = true.
Proof.
  induction s as [|c s IH]; [congruence|]. intros _.
  simpl forallb. intros [Hc Hs]%andb_prop. simpl.
  destruct s as [|c' s].
  - intros He. now apply slug_not_hyphen_alnum.
  - intros He. rewrite Hc. simpl. apply IH; [discriminate|exact Hs|exact He].
Qed.

Lemma canonicalSlug_pattern s : canonicalSlug s = true -> slugPattern s = true.
Proof.
  unfold canonicalSlug.
  intros [[[Ha Hd]%andb_prop Hs]%andb_prop He]%andb_prop.
  apply negb_true_iff in Hs, He.
  destruct s as [|c s]; [reflexivity|].
  simpl in Ha, Hs. apply andb_prop in Ha as [Hc Ha]. simpl.
  rewrite (slug_not_hyphen_alnum c Hc Hs). simpl.
  destruct s as [|c' s]; [reflexivity|].
  apply slugTail_ok; [discriminate|exact Ha|exact He].
Qed.

End Slug.

(** C7. For every string [s]: [sanitizeSlug] is idempotent; its result
    matches [^[a-z0-9]([a-z0-9-]*[a-z0-9])?$|^$], that is, it holds only
    lowercase alphanumerics and hyphens, with no hyphen at either end and no
    two hyphens in a row; [sanitizeSlug] is a total function (it returns a
    string for every input); and the empty string gives the empty string. *)
Theorem sanitizeSlug_idempotent_canonical :
  (forall s : jsstring, sanitizeSlug (sanitizeSlug s) = sanitizeSlug s)
  /\ (forall s : jsstring, slugPattern (sanitizeSlug s) = true)
  /\ (forall s : jsstring,
        forallb isSlugChar (sanitizeSlug s) = true
        /\ startsWithHyphen (sanitizeSlug s) = false
        /\ endsWithHyphen (sanitizeSlug s) = false
        /\ noDoubleHyphen (sanitizeSlug s) = true)
  /\ (forall s : jsstring, exists r : jsstring, sanitizeSlug s = r)
  /\ sanitizeSlug [] = [].
Proof.
  split; [|split; [|split; [|split]]].
  - intros s. apply canonicalSlug_fixed, sanitizeSlug_canonical.
  - intros s. apply canonicalSlug_pattern, sanitizeSlug_canonical.
  - intros s. pose proof (sanitizeSlug_canonical s) as H.
    unfold canonicalSlug in H.
    apply andb_prop in H as [[[Ha Hd]%andb_prop Hs]%andb_prop He].
    apply negb_true_iff in Hs, He. auto.
  - intros s. eexists. reflexivity.
  - reflexivity.
Qed.

Example sanitizeSlug_examples :
  sanitizeSlug (str "Hello, World!") = str "hello-world"
  /\ sanitizeSlug (str "--Astro__3.0 Guide--") = str "astro-3-0-guide"
  /\ sanitizeSlug (str "***") = [].
Proof. repeat split; reflexivity. Qed.

(** ** Slices *)

Lemma slice_0 {A} (l : list A) (n : Z) :
  0 <= n -> slice l 0 n = take (Z.to_nat n) l.
Proof.
  intros Hn. unfold slice, relIndex. simpl.
  destruct (Z.ltb_spec n 0) as [E|E]; [lia|].
  rewrite (Z.min_l 0) by lia. change (drop (Z.to_nat 0) l) with l.
  rewrite Z.sub_0_r.
  destruct (Z.le_ge_cases n (Z.of_nat (length l))) as [H|H].
  - rewrite Z.min_l by lia. reflexivity.
  - rewrite Z.min_r by lia. rewrite Nat2Z.id.
    rewrite take_ge by lia. rewrite take_ge by lia. reflexivity.
Qed.

Lemma slice_0_all {A} (l : list A) (n : Z) :
  Z.of_nat (length l) <= n -> slice l 0 n = l.
Proof.
  intros H. rewrite slice_0 by lia. apply take_ge. lia.
Qed.

Lemma slice_0_length {A} (l : list A) (n : Z) :
  0 <= n -> Z.of_nat (length (slice l 0 n)) <= n.
Proof.
  intros H. rewrite slice_0 by lia. rewrite length_take. lia.
Qed.

(** ** White space, [trim] and [split] *)

Section Words.

Local Arguments isWhiteSpace : simpl never.

Lemma trimStart_nil_iff s : trimStart s = [] <-> forallb isWhiteSpace s = true.
Proof.
  induction s as [|c s IH]; simpl; [tauto|].
  destruct (isWhiteSpace c); simpl; [exact IH|]. split; discriminate.
Qed.

Lemma trimStart_snoc s c :
  trimStart (s ++ [c]) =
  if forallb isWhiteSpace s then (if isWhiteSpace c then [] else [c])
  else trimStart s ++ [c].
Proof.
  induction s as [|x s IH]; simpl; [reflexivity|].
  destruct (isWhiteSpace x); simpl; [exact IH|reflexivity].
Qed.

(** [trimEnd], by recursion from the front. *)
Lemma trimEnd_cons c s :
  trimEnd (c :: s) =
  match trimEnd s with
  | [] => if isWhiteSpace c then [] else [c]
  | _ :: _ => c :: trimEnd s
  end.
Proof.
  unfold trimEnd. simpl rev at 2. rewrite trimStart_snoc.
  destruct (forallb isWhiteSpace (rev s)) eqn:E.
  - apply trimStart_nil_iff in E. rewrite E. simpl.
    destruct (isWhiteSpace c); reflexivity.
  - rewrite rev_app_distr. simpl.
    destruct (rev (trimStart (rev s))) as [|x l] eqn:E'; [|reflexivity].
    apply (f_equal (@rev _)) in E'. rewrite rev_involutive in E'. simpl in E'.
    apply trimStart_nil_iff in E'. congruence.
Qed.

Lemma trimStart_starts s : startsWithSpace (trimStart s) = false.
Proof.
  induction s as [|c s IH]; simpl; [reflexivity|].
  destruct (isWhiteSpace c) eqn:E; simpl; auto.
Qed.

Lemma trimEnd_starts s :
  startsWithSpace s = false -> startsWithSpace (trimEnd s) = false.
Proof.
  destruct s as [|c s]; [auto|]. rewrite trimEnd_cons. simpl. intros H.
  destruct (trimEnd s); [rewrite H|]; simpl; auto.
Qed.

Lemma trimEnd_ends s : endsWithSpace (trimEnd s) = false.
Proof.
  induction s as [|c s IH]; [reflexivity|]. rewrite trimEnd_cons.
  destruct (trimEnd s) as [|x l] eqn:E.
  - destruct (isWhiteSpace c) eqn:Ec; simpl; auto.
  - exact IH.
Qed.

Lemma trim_trimmed s :
  startsWithSpace (trim s) = false /\ endsWithSpace (trim s) = false.
Proof.
  unfold trim. split.
  - apply trimEnd_starts, trimStart_starts.
  - apply trimEnd_ends.
Qed.

Lemma countWords_trimStart s : countWords (trimStart s) = countWords s.
Proof.
  unfold countWords. induction s as [|c s IH]; simpl; [reflexivity|].
  destruct (isWhiteSpace c) eqn:E; [exact IH|]. simpl. rewrite E. reflexivity.
Qed.

Lemma countWords_from_trimEnd b s :
  countWords_from b (trimEnd s) = countWords_from b s.
Proof.
  revert b. induction s as [|c s IH]; intros b; [reflexivity|].
  rewrite trimEnd_cons. destruct (trimEnd s) as [|x l] eqn:E.
  - simpl. destruct (isWhiteSpace c) eqn:Ec; simpl; rewrite ?Ec, <- IH;
      reflexivity.
  - simpl. destruct (isWhiteSpace c); rewrite <- IH; reflexivity.
Qed.

Lemma countWords_trim s : countWords (trim s) = countWords s.
Proof.
  unfold trim, countWords. rewrite countWords_from_trimEnd.
  apply countWords_trimStart.
Qed.

Lemma countWords_from_false s :
  countWords_from false s =
  (countWords_from true s
   + (match s with [] => 0 | c :: _ => if isWhiteSpace c then 0 else 1 end))%nat.
Proof.
  destruct s as [|c s]; simpl; [reflexivity|].
  destruct (isWhiteSpace c); lia.
Qed.

Lemma split_ws_length_pos s : (1 <= length (split_ws s))%nat.
Proof.
  induction s as [|c s IH]; simpl; [lia|].
  destruct (isWhiteSpace c).
  - destruct s as [|c' s]; [simpl; lia|].
    destruct (isWhiteSpace c'); [exact IH|simpl; lia].
  - destruct (split_ws s); simpl; lia.
Qed.

(** The number of pieces of [split]: one more than the runs of white space. *)
Lemma split_ws_length s :
  length (split_ws s) =
  (countWords_from true s + 1 + (if endsWithSpace s then 1 else 0))%nat.
Proof.
  induction s as [|c s IH]; [reflexivity|].
  cbn [split_ws countWords_from endsWithSpace].
  destruct (isWhiteSpace c) eqn:Ec.
  - destruct s as [|c' s]; [reflexivity|].
    rewrite (countWords_from_false (c' :: s)).
    destruct (isWhiteSpace c') eqn:Ec'.
    + rewrite IH. lia.
    + cbn [length]. rewrite IH. lia.
  - pose proof (split_ws_length_pos s) as Hpos.
    destruct (split_ws s) as [|p ps] eqn:E; [simpl in Hpos; lia|].
    cbn [length] in *. rewrite IH.
    destruct s as [|c' s]; [simpl; rewrite ?Ec; reflexivity|]. lia.
Qed.

(** After [trim], [split] gives the words, or one empty piece. *)
Lemma split_trim_length s :
  length (split_ws (trim s)) = Nat.max 1 (countWords s).
Proof.
  rewrite <- (countWords_trim s). destruct (trim_trimmed s) as [Hs He].
  rewrite split_ws_length, He. unfold countWords.
  rewrite (countWords_from_false (trim s)).
  destruct (trim s) as [|c t]; [reflexivity|].
  simpl in Hs. rewrite Hs. lia.
Qed.

Lemma countWords_from_word b w t :
  isWord w = true ->
  countWords_from b (w ++ t) =
  ((if b then 0 else 1) + countWords_from true t)%nat.
Proof.
  unfold isWord. intros [Hne Hall]%andb_prop.
  destruct w as [|c w]; [discriminate|]. clear Hne.
  simpl in Hall. apply andb_prop in Hall as [Hc Hall].
  apply negb_true_iff in Hc. simpl. rewrite Hc. f_equal.
  clear c Hc b. induction w as [|c w IH]; [reflexivity|].
  simpl in Hall. apply andb_prop in Hall as [Hc Hall].
  apply negb_true_iff in Hc. simpl. rewrite Hc. simpl. auto.
Qed.

Lemma countWords_join ws :
  Forall (fun w => isWord w = true) ws ->
  countWords (join (str " ") ws) = length ws.
Proof.
  unfold countWords. induction 1 as [|w ws Hw Hws IH]; [reflexivity|].
  cbn [join]. destruct ws as [|w' ws].
  - rewrite <- (app_nil_r w), countWords_from_word by exact Hw. reflexivity.
  - rewrite countWords_from_word by exact Hw.
    change (str " " ++ join (str " ") (w' :: ws))
      with (" "%char :: join (str " ") (w' :: ws)).
    cbn [countWords_from]. change (isWhiteSpace " ") with true. cbn iota.
    rewrite IH. reflexivity.
Qed.

End Words.

(** ** Reading time *)

Lemma calculateReadingTime_words content :
  Utils.calculateReadingTime content =
  Z.max 1 (ceil_div
             (Z.max 1 (Z.of_nat (countWords (take (Z.to_nat 100000) content)))) 200).
Proof.
  unfold Utils.calculateReadingTime, maxContentLength, wordsPerMinute.
  rewrite slice_0 by lia. rewrite split_trim_length.
  rewrite Nat2Z.inj_max. reflexivity.
Qed.

Lemma calculateReadingTime_ref content :
  Utils.calculateReadingTime content = readingTime_ref content.
Proof.
  rewrite calculateReadingTime_words. unfold readingTime_ref, ceil_div.
  set (w := Z.of_nat (countWords (take (Z.to_nat 100000) content))).
  assert (0 <= w) by (unfold w; lia).
  destruct (Z.eq_dec w 0) as [->|Hw].
  - reflexivity.
  - rewrite (Z.max_r 1 w) by lia.
    replace (w + 200 - 1) with (w + 199) by lia.
    assert (1 <= (w + 199) / 200) by (apply Z.div_le_lower_bound; lia).
    destruct ((w + 199) / 200 <? 1) eqn:E; lia.
Qed.

Lemma calculateReadingTime_min content : 1 <= Utils.calculateReadingTime content.
Proof. unfold Utils.calculateReadingTime. lia. Qed.

Lemma calculateReadingTime_400 ws :
  length ws = 400%nat ->
  Forall (fun w => isWord w = true) ws ->
  Z.of_nat (length (join (str " ") ws)) <= 100000 ->
  Utils.calculateReadingTime (join (str " ") ws) = 2.
Proof.
  intros Hlen Hws Hsize. rewrite calculateReadingTime_words.
  rewrite take_ge by lia. rewrite countWords_join, Hlen by exact Hws.
  reflexivity.
Qed.

Example split_ws_examples :
  split_ws (str "a b  c") = [str "a"; str "b"; str "c"]
  /\ split_ws (str " a ") = [[]; str "a"; []]
  /\ split_ws [] = [[]].
Proof. repeat split; reflexivity. Qed.

Example calculateReadingTime_empty : Utils.calculateReadingTime [] = 1.
Proof. reflexivity. Qed.

(** C4 (as the code has it). For every body string, the empty one too,
    [calculateReadingTime] equals the reference definition (truncate to
    100000 characters, count the words between white space runs, divide by
    200, round up, take at least 1); so the result is always at least 1; and
    a body of exactly 400 space-separated words that is at most 100000
    characters long gives 2. *)
Theorem calculateReadingTime_reference :
  (forall body : jsstring,
      Utils.calculateReadingTime body = readingTime_ref body)
  /\ (forall body : jsstring, 1 <= Utils.calculateReadingTime body)
  /\ (forall words : list jsstring,
        length words = 400%nat ->
        forallb isWord words = true ->
        Z.of_nat (length (join (str " ") words)) <= 100000 ->
        Utils.calculateReadingTime (join (str " ") words) = 2).
Proof.
  split; [|split].
  - apply calculateReadingTime_ref.
  - apply calculateReadingTime_min.
  - intros ws Hlen Hws Hsize. apply calculateReadingTime_400; auto.
    apply Forall_forall. intros w Hw.
    rewrite forallb_forall in Hws. now apply Hws.
Qed.

Lemma calculateReadingTime_reference_witness :
  Utils.calculateReadingTime (join (str " ") short_words) = 2.
Proof.
  apply (proj2 (proj2 calculateReadingTime_reference) short_words);
    vm_compute; [reflexivity | reflexivity | discriminate].
Defined.

(** C4, as stated, fails: 400 space-separated words of 500 characters each
    are cut to 100000 characters, which hold 200 words, and give 1. *)
Lemma calculateReadingTime_400_long_words :
  length long_words = 400%nat
  /\ forallb isWord long_words = true
  /\ Utils.calculateReadingTime (join (str " ") long_words) = 1
  /\ Utils.calculateReadingTime (join (str " ") long_words) <> 2.
Proof.
  assert (Hcount : countWords
            (take (Z.to_nat 100000) (join (str " ") long_words)) = 200%nat)
    by (vm_compute; reflexivity).
  split; [vm_compute; reflexivity|]. split; [vm_compute; reflexivity|].
  rewrite calculateReadingTime_words, Hcount.
  split; [reflexivity|discriminate].
Qed.

(** C9. For every body string of at most 100000 characters, the
    [calculateReadingTime] of [src/utils/blog.ts] and the one of the utility
    module give the same number. *)
Theorem calculateReadingTime_agree (body : jsstring) :
  Z.of_nat (length body) <= 100000 ->
  Blog.calculateReadingTime body = Utils.calculateReadingTime body.
Proof.
  intros Hlen.
  unfold Blog.calculateReadingTime, Utils.calculateReadingTime.
  unfold maxContentLength, wordsPerMinute. rewrite slice_0_all by exact Hlen.
  pose proof (split_ws_length_pos (trim body)) as Hpos.
  set (words := Z.of_nat (length (split_ws (trim body)))) in *.
  assert (1 <= ceil_div words 200).
  { unfold ceil_div. apply Z.div_le_lower_bound; lia. }
  lia.
Qed.

Lemma calculateReadingTime_agree_witness :
  Blog.calculateReadingTime (str "static sites are fast") =
  Utils.calculateReadingTime (str "static sites are fast").
Proof.
  apply (calculateReadingTime_agree (str "static sites are fast")).
  vm_compute. discriminate.
Defined.

(** ** [sanitizeTags] *)

Lemma isTagChar_i_lower c :
  isTagChar_i (toLowerCase_char c) = isTagChar (toLowerCase_char c).
Proof. ascii_cases c. Qed.

Lemma forallb_isTagChar_i_lower s :
  forallb isTagChar_i (toLowerCase s) = forallb isTagChar (toLowerCase s).
Proof.
  unfold toLowerCase. induction s as [|x s IH]; [reflexivity|].
  cbn [map forallb]. now rewrite isTagChar_i_lower, IH.
Qed.

Lemma tagPattern_i_lower s :
  tagPattern_i (toLowerCase s) = tagPattern (toLowerCase s).
Proof.
  unfold tagPattern_i, tagPattern.
  rewrite <- forallb_isTagChar_i_lower.
  destruct s as [|c s]; reflexivity.
Qed.

Lemma sanitizeTags_stages tags :
  List.filter tagPattern_i
    (map normalizeTag (List.filter isNonBlankString tags)) =
  omap normalizeTag_ref tags.
Proof.
  induction tags as [|v tags IH]; [reflexivity|].
  cbn [List.filter omap list_omap]. fold (omap normalizeTag_ref tags).
  destruct v as [| |b|n|s|t|l]; cbn [isNonBlankString normalizeTag_ref];
    try exact IH.
  destruct (trim s) as [|c t] eqn:E.
  - exact IH.
  - assert (Hnb : (0 <? Z.of_nat (length (c :: t))) = true)
      by (apply Z.ltb_lt; cbn [length]; lia).
    rewrite Hnb. cbn [map List.filter normalizeTag].
    rewrite E, tagPattern_i_lower.
    destruct (tagPattern (toLowerCase (c :: t))); now rewrite IH.
Qed.

Lemma sanitizeTags_ref_eq tags : sanitizeTags tags = sanitizeTags_ref tags.
Proof.
  unfold sanitizeTags, sanitizeTags_ref, maxTags.
  rewrite slice_0 by lia. now rewrite sanitizeTags_stages.
Qed.

Lemma In_take {A} (x : A) n l : In x (take n l) -> In x l.
Proof.
  revert n. induction l as [|y l IH]; intros [|n]; simpl; try tauto.
  intros [H|H]; [auto|right; eauto].
Qed.

Lemma In_omap {A B} (f : A -> option B) y l :
  In y (omap f l) -> exists x, In x l /\ f x = Some y.
Proof.
  induction l as [|x l IH]; [intros []|].
  cbn [omap list_omap]. fold (omap f l). destruct (f x) as [b|] eqn:E.
  - intros [<-|H]; [exists x; simpl; auto|].
    destruct (IH H) as (x' & Hin & Hx'). exists x'. simpl. auto.
  - intros H. destruct (IH H) as (x' & Hin & Hx'). exists x'. simpl. auto.
Qed.

Lemma sanitizeTags_pattern tags t :
  In t (sanitizeTags tags) -> tagPattern t = true.
Proof.
  rewrite sanitizeTags_ref_eq. unfold sanitizeTags_ref.
  intros H%In_take%In_omap. destruct H as (v & _ & Hv).
  unfold normalizeTag_ref in Hv. destruct v; try discriminate.
  destruct (trim s) as [|c u]; [discriminate|].
  destruct (tagPattern (toLowerCase (c :: u))) eqn:E; [|discriminate].
  now injection Hv as <-.
Qed.

Lemma omap_valid tags :
  forallb isValidTag tags = true ->
  omap normalizeTag_ref tags = map normalizeTag tags.
Proof.
  induction tags as [|v tags IH]; [reflexivity|].
  cbn [forallb]. intros [Hv Hs]%andb_prop.
  cbn [omap list_omap map]. fold (omap normalizeTag_ref tags).
  rewrite (IH Hs). unfold isValidTag in Hv.
  destruct (normalizeTag_ref v) as [t|] eqn:E; [|discriminate].
  f_equal. unfold normalizeTag_ref in E. destruct v; try discriminate.
  cbn [normalizeTag]. destruct (trim s) as [|c u]; [discriminate|].
  destruct (tagPattern (toLowerCase (c :: u))); [|discriminate].
  now injection E as <-.
Qed.

(** C6. For every input sequence, [sanitizeTags] equals the reference
    definition (drop the entries that are no string or blank, trim and
    lowercase the others, keep those matching [^[a-z0-9-\s]+$], keep the
    first 10 in their order); so the tag "C++ <script>" is rejected and is in
    no output, "Web-Design" becomes "web-design", and more than 10 valid tags
    give exactly 10 entries, the first 10 of the input in their order. *)
Theorem sanitizeTags_reference :
  (forall tags : list value, sanitizeTags tags = sanitizeTags_ref tags)
  /\ sanitizeTags [VString (str "C++ <script>")] = []
  /\ (forall tags : list value, ~ In (str "C++ <script>") (sanitizeTags tags))
  /\ sanitizeTags [VString (str "Web-Design")] = [str "web-design"]
  /\ (forall tags : list value,
        (10 < length tags)%nat ->
        forallb isValidTag tags = true ->
        length (sanitizeTags tags) = 10%nat
        /\ sanitizeTags tags = map normalizeTag (take 10 tags)).
Proof.
  split; [exact sanitizeTags_ref_eq|].
  split; [reflexivity|]. split; [|split; [reflexivity|]].
  - intros tags H%sanitizeTags_pattern. discriminate H.
  - intros tags Hlen Hvalid. rewrite sanitizeTags_ref_eq.
    unfold sanitizeTags_ref. rewrite (omap_valid _ Hvalid).
    split.
    + rewrite length_take, length_map. lia.
    + rewrite <- firstn_map. reflexivity.
Qed.

Lemma sanitizeTags_reference_witness :
  length (sanitizeTags eleven_tags) = 10%nat
  /\ sanitizeTags eleven_tags = map normalizeTag (take 10 eleven_tags).
Proof.
  apply (proj2 (proj2 (proj2 (proj2 sanitizeTags_reference))) eleven_tags).
  - vm_compute. lia.
  - vm_compute. reflexivity.
Defined.

(** ** [generateExcerpt] *)

Lemma slice_length_le {A} (l : list A) (a b : Z) :
  (length (slice l a b) <= length l)%nat.
Proof.
  unfold slice. rewrite length_take, length_drop. lia.
Qed.

(** The excerpt is never longer than the limit and the ellipsis. *)
Lemma generateExcerpt_length (content : jsstring) (maxLength : Z) :
  0 <= maxLength ->
  Z.of_nat (length (generateExcerpt content maxLength)) <= maxLength + 3.
Proof.
  intros Hmax. unfold generateExcerpt.
  set (plainText := trim (List.filter isExcerptChar (stripTags content))).
  destruct (Z.leb_spec (Z.of_nat (length plainText)) maxLength) as [H|H];
    [lia|].
  pose proof (slice_0_length plainText maxLength Hmax) as Htr.
  set (truncated := slice plainText 0 maxLength) in *.
  destruct (0 <? lastIndexOf truncated " ").
  - rewrite length_app.
    pose proof (slice_length_le truncated 0 (lastIndexOf truncated " ")).
    change (length ellipsis) with 3%nat. lia.
  - rewrite length_app. change (length ellipsis) with 3%nat. lia.
Qed.

Lemma generateExcerpt_length_160 (content : jsstring) :
  (length (generateExcerpt content defaultMaxLength) <= 163)%nat.
Proof.
  pose proof (generateExcerpt_length content defaultMaxLength) as H.
  unfold defaultMaxLength in *. lia.
Qed.

(** [lastIndexOf] gives [-1] or the index of an occurrence. *)
Lemma lastIndexOf_from_spec c s i found :
  lastIndexOf_from c s i found = found
  \/ (i <= lastIndexOf_from c s i found < i + Z.of_nat (length s)
      /\ nth (Z.to_nat (lastIndexOf_from c s i found - i)) s c = c).
Proof.
  revert i found. induction s as [|x s IH]; intros i found; [now left|].
  cbn [lastIndexOf_from length].
  destruct (IH (i + 1) (if Ascii.eqb x c then i else found)) as [H|[H1 H2]].
  - rewrite H. destruct (Ascii.eqb x c) eqn:E; [|now left].
    right. split; [lia|]. rewrite Z.sub_diag. now apply Ascii.eqb_eq.
  - right. split; [lia|].
    replace (Z.to_nat (lastIndexOf_from c s (i + 1)
                         (if Ascii.eqb x c then i else found) - i))
      with (S (Z.to_nat (lastIndexOf_from c s (i + 1)
                           (if Ascii.eqb x c then i else found) - (i + 1))))
      by lia.
    exact H2.
Qed.

Lemma lastIndexOf_spec s c :
  lastIndexOf s c = -1
  \/ (0 <= lastIndexOf s c < Z.of_nat (length s)
      /\ nth (Z.to_nat (lastIndexOf s c)) s c = c).
Proof.
  unfold lastIndexOf.
  destruct (lastIndexOf_from_spec c s 0 (-1)) as [H|[H1 H2]]; [now left|].
  right. rewrite Z.sub_0_r in H2. split; [lia|exact H2].
Qed.

(** With a space after the first character of the window, the excerpt is
    the text in front of the last such space, and the ellipsis. *)
Lemma generateExcerpt_cut_at_space (content : jsstring) (maxLength : Z) :
  let plainText := trim (List.filter isExcerptChar (stripTags content)) in
  let i := lastIndexOf (take (Z.to_nat maxLength) plainText) " " in
  0 <= maxLength < Z.of_nat (length plainText) ->
  0 < i ->
  generateExcerpt content maxLength = take (Z.to_nat i) plainText ++ str "..."
  /\ nth (Z.to_nat i) plainText " "%char = " "%char
  /\ i < maxLength.
Proof.
  intros plainText i Hmax Hi. unfold generateExcerpt. fold plainText.
  destruct (Z.leb_spec (Z.of_nat (length plainText)) maxLength) as [H|_];
    [lia|].
  rewrite (slice_0 plainText) by lia. fold i.
  destruct (Z.ltb_spec 0 i) as [_|H]; [|lia].
  destruct (lastIndexOf_spec (take (Z.to_nat maxLength) plainText) " ")
    as [H|[H1 H2]]; [unfold i in Hi; lia|].
  fold i in H1, H2. rewrite length_take in H1.
  rewrite slice_0 by lia. rewrite take_take.
  replace (Z.to_nat i `min` Z.to_nat maxLength)%nat with (Z.to_nat i) by lia.
  split; [reflexivity|]. split; [|lia].
  rewrite <- H2 at 2. symmetry.
  rewrite <- (take_drop (Z.to_nat maxLength) plainText) at 2.
  rewrite app_nth1 by (rewrite length_take; lia). reflexivity.
Qed.

Example generateExcerpt_examples :
  generateExcerpt (str "<p>Hello <b>world</b> & friends!</p>") 160
  = str "Hello world  friends!"
  /\ generateExcerpt (str "Static sites are fast and simple") 20
    = str "Static sites are" ++ str "...".
Proof. split; reflexivity. Qed.

(** C5, at a body of two words on two lines.  The line feed at index 100 is
    a white space boundary before the cut at 160, yet the excerpt is the
    first 160 characters and the ellipsis: it ends inside the second word.
    Backing up to the boundary would give the first word and the ellipsis. *)
Theorem generateExcerpt_two_lines :
  isWhiteSpace (nth 100 two_lines " "%char) = true
  /\ lastIndexOf (slice two_lines 0 defaultMaxLength) " " = -1
  /\ generateExcerpt two_lines defaultMaxLength =
       repeat "a"%char 100 ++ ["010"%char] ++ repeat "b"%char 59 ++ str "..."
  /\ generateExcerpt two_lines defaultMaxLength <>
       repeat "a"%char 100 ++ str "...".
Proof. vm_compute. repeat split; discriminate. Qed.

(** ** [formatDate] *)

Section FormatDateProps.

Variable Date_parse : jsstring -> option Z.
Variable toLocaleDateString : Z -> jsstring.

(** A formatted date is never the text of the sentinel. *)
Hypothesis toLocaleDateString_date :
  forall t, toLocaleDateString t <> str "Invalid date".

Lemma formatDate_invalid date :
  newDate Date_parse date = None ->
  formatDate Date_parse toLocaleDateString date = str "Invalid date".
Proof. unfold formatDate, formatDate_try. now intros ->. Qed.

Lemma formatDate_valid date t :
  newDate Date_parse date = Some t ->
  formatDate Date_parse toLocaleDateString date = toLocaleDateString t.
Proof. unfold formatDate, formatDate_try. now intros ->. Qed.

(** C10 (as the code has it). For every input, a [Date] object or a string,
    [formatDate] returns a string and never throws.  An invalid [Date]
    object gives 'Invalid date', a valid one its formatted date; a string
    gives what the [Date] built from it gives.  So the result is 'Invalid
    date' exactly when the [Date] object given, or built from the string by
    the parser of the host, is invalid (its time value is NaN). *)
Theorem formatDate_sentinel_iff_invalid_Date :
  formatDate Date_parse toLocaleDateString (DateObject None)
  = str "Invalid date"
  /\ (forall t : Z,
        formatDate Date_parse toLocaleDateString (DateObject (Some t))
        = toLocaleDateString t
        /\ formatDate Date_parse toLocaleDateString (DateObject (Some t))
           <> str "Invalid date")
  /\ (forall s : jsstring,
        formatDate Date_parse toLocaleDateString (DateString s)
        = formatDate Date_parse toLocaleDateString
            (DateObject (Date_parse s)))
  /\ (forall date : dateInput,
        formatDate Date_parse toLocaleDateString date = str "Invalid date"
        <-> match date with
            | DateObject time => time
            | DateString s => Date_parse s
            end = None)
  /\ (forall date : dateInput,
        exists r : jsstring,
          formatDate Date_parse toLocaleDateString date = r).
Proof.
  split; [reflexivity|]. split; [|split; [|split]].
  - intros t. split; [reflexivity|]. apply toLocaleDateString_date.
  - intros s. reflexivity.
  - intros date. split.
    + destruct date as [[t|]|s]; try reflexivity.
      * intros H. now apply toLocaleDateString_date in H.
      * unfold formatDate, formatDate_try. cbn [newDate].
        destruct (Date_parse s) as [t|]; [|reflexivity].
        intros H. now apply toLocaleDateString_date in H.
    + intros H. apply formatDate_invalid. destruct date; exact H.
  - intros date. eexists. reflexivity.
Qed.

End FormatDateProps.

Lemma formatDate_sentinel_iff_invalid_Date_witness :
  formatDate (fun _ => None) (fun _ => str "January 15, 2024")
    (DateObject None) = str "Invalid date"
  /\ formatDate (fun _ => None) (fun _ => str "January 15, 2024")
       (DateObject (Some jan15)) <> str "Invalid date".
Proof.
  destruct (formatDate_sentinel_iff_invalid_Date
              (fun _ => None) (fun _ => str "January 15, 2024"))
    as (Hnone & Hsome & _).
  - intros t. discriminate.
  - split; [exact Hnone|]. apply (Hsome jan15).
Defined.

(** C10, as stated, fails where the parser of the host reads the 30th of
    February 2024 as the 1st of March, as V8 does: the string denotes no
    calendar date, and [formatDate] returns the formatted 1st of March and
    not the sentinel. *)
Lemma formatDate_30_february :
  isoDateOnly feb30 = Some (2024, 2, 30)
  /\ isCalendarDate 2024 2 30 = false
  /\ forall (Date_parse : jsstring -> option Z)
            (toLocaleDateString : Z -> jsstring),
       Date_parse feb30 = Some march1 ->
       (forall t, toLocaleDateString t <> str "Invalid date") ->
       formatDate Date_parse toLocaleDateString (DateString feb30)
       = toLocaleDateString march1
       /\ formatDate Date_parse toLocaleDateString (DateString feb30)
          <> str "Invalid date".
Proof.
  split; [reflexivity|]. split; [reflexivity|].
  intros Date_parse toLocaleDateString Hparse Hdate.
  assert (E : formatDate Date_parse toLocaleDateString (DateString feb30)
              = toLocaleDateString march1).
  { unfold formatDate, formatDate_try. cbn [newDate]. now rewrite Hparse. }
  split; [exact E|]. rewrite E. apply Hdate.
Qed.

(** ** [Array.prototype.sort] *)

Section Sort.

Context {A : Type}.
Variable cmp : A -> A -> Z.

Lemma insert_perm x l : Permutation (insert cmp x l) (x :: l).
Proof.
  induction l as [|y l IH]; cbn [insert]; [reflexivity|].
  destruct (cmp x y <=? 0); [reflexivity|].
  rewrite IH. apply perm_swap.
Qed.

Lemma sort_perm l : Permutation (sort cmp l) l.
Proof.
  induction l as [|x l IH]; [reflexivity|].
  cbn [sort foldr]. fold (sort cmp l). rewrite insert_perm. now constructor.
Qed.

Lemma sort_In x l : In x (sort cmp l) <-> In x l.
Proof.
  split; apply Permutation_in; [|symmetry]; apply sort_perm.
Qed.

Hypothesis cmp_total : forall a b, 0 < cmp a b -> cmp b a <= 0.
Hypothesis cmp_trans :
  forall a b c, before cmp a b -> before cmp b c -> before cmp a c.

Lemma insert_sorted x l :
  StronglySorted (before cmp) l -> StronglySorted (before cmp) (insert cmp x l).
Proof.
  induction 1 as [|y l Hs IH Hy]; cbn [insert].
  - repeat constructor.
  - destruct (Z.leb_spec (cmp x y) 0) as [Hle|Hgt].
    + constructor; [now constructor|].
      constructor; [exact Hle|].
      eapply Forall_impl; [|exact Hy]. intros z Hz. now apply cmp_trans with y.
    + constructor; [exact IH|].
      apply (Permutation_Forall (Permutation_sym (insert_perm x l))).
      constructor; [now apply cmp_total|exact Hy].
Qed.

Lemma sort_sorted l : StronglySorted (before cmp) (sort cmp l).
Proof.
  induction l as [|x l IH]; [constructor|].
  cbn [sort foldr]. fold (sort cmp l). now apply insert_sorted.
Qed.

(** Stability: the elements of a class that the comparison function does
    not tell apart keep their order. *)
Variable f : A -> bool.
Hypothesis f_class : forall x y, f x = true -> f y = true -> cmp x y <= 0.

Lemma insert_filter x l :
  List.filter f (insert cmp x l) = List.filter f (x :: l).
Proof.
  induction l as [|y l IH]; cbn [insert]; [reflexivity|].
  destruct (Z.leb_spec (cmp x y) 0) as [Hle|Hgt]; [reflexivity|].
  cbn [List.filter] in *. rewrite IH.
  destruct (f x) eqn:Ex, (f y) eqn:Ey; try reflexivity.
  specialize (f_class x y Ex Ey). lia.
Qed.

Lemma sort_filter l : List.filter f (sort cmp l) = List.filter f l.
Proof.
  induction l as [|x l IH]; [reflexivity|].
  cbn [sort foldr]. fold (sort cmp l). rewrite insert_filter.
  cbn [List.filter]. now rewrite IH.
Qed.

End Sort.

(** ** [getPublishedBlogPosts] *)

Lemma getPublishedBlogPosts_eq collection :
  getPublishedBlogPosts collection =
  Fulfilled (sort byPublishDateDesc (List.filter isPublished collection)).
Proof. reflexivity. Qed.

Lemma published_In collection p :
  In p (sort byPublishDateDesc (List.filter isPublished collection)) <->
  In p collection /\ draft (data p) = false.
Proof.
  rewrite sort_In, filter_In. unfold isPublished.
  now rewrite negb_true_iff.
Qed.

Lemma before_newestFirst a b :
  before byPublishDateDesc a b <-> newestFirst a b.
Proof. unfold before, byPublishDateDesc, newestFirst. lia. Qed.

Lemma published_sorted l :
  StronglySorted newestFirst (sort byPublishDateDesc l).
Proof.
  assert (H : StronglySorted (before byPublishDateDesc)
                (sort byPublishDateDesc l)).
  { apply sort_sorted; unfold before, byPublishDateDesc; intros; lia. }
  induction H as [|x s Hs IH Hx]; constructor; [exact IH|].
  eapply Forall_impl; [|exact Hx]. intros y. apply before_newestFirst.
Qed.

Lemma published_stable d l :
  List.filter (sameDate d) (sort byPublishDateDesc l) =
  List.filter (sameDate d) l.
Proof.
  apply sort_filter. unfold sameDate, byPublishDateDesc. intros x y Hx Hy.
  apply Z.eqb_eq in Hx, Hy. lia.
Qed.

(** C8. For every collection, no record with [draft == true] is in the
    assembled output, whatever its other fields hold. *)
Theorem drafts_excluded (collection : list BlogPost) (p : BlogPost) :
  draft (data p) = true ->
  exists posts,
    getPublishedBlogPosts collection = Fulfilled posts /\ ~ In p posts.
Proof.
  intros Hdraft. eexists. split; [apply getPublishedBlogPosts_eq|].
  intros [_ H]%published_In. congruence.
Qed.

Lemma drafts_excluded_witness :
  exists posts,
    getPublishedBlogPosts with_draft = Fulfilled posts
    /\ ~ In (post "wip.md" jan25 true) posts.
Proof.
  apply (drafts_excluded with_draft (post "wip.md" jan25 true)).
  reflexivity.
Defined.

(** C1, as stated, fails: the two posts of [same_slug_posts] are published,
    their identifiers differ and have one slug, and the assembly is
    fulfilled with both. *)
Lemma duplicate_slug_not_fatal :
  sanitizeSlug (str "Hello World.md") = str "hello-world-md"
  /\ sanitizeSlug (str "hello-world.md") = str "hello-world-md"
  /\ getPublishedBlogPosts same_slug_posts =
     Fulfilled [post "hello-world.md" jan20 false;
                post "Hello World.md" jan15 false]
  /\ ~ duplicateSlugFatal same_slug_posts.
Proof.
  split; [reflexivity|]. split; [reflexivity|]. split; [reflexivity|].
  intros H.
  destruct (H (post "Hello World.md" jan15 false)
              (post "hello-world.md" jan20 false))
    as (e & He & _).
  - simpl. auto.
  - simpl. auto.
  - vm_compute. discriminate.
  - reflexivity.
  - reflexivity.
  - vm_compute. reflexivity.
  - discriminate He.
Qed.

(** C1 (as the code has it). The assembler checks no slug: for every
    collection it is fulfilled with an output sequence, and two non-draft
    records whose identifiers sanitize to the same slug are both in it. *)
Theorem duplicate_slugs_both_published
    (collection : list BlogPost) (a b : BlogPost) :
  In a collection -> In b collection ->
  draft (data a) = false -> draft (data b) = false ->
  sanitizeSlug (id a) = sanitizeSlug (id b) ->
  exists posts,
    getPublishedBlogPosts collection = Fulfilled posts
    /\ In a posts /\ In b posts.
Proof.
  intros Ha Hb Hda Hdb _. eexists. split; [apply getPublishedBlogPosts_eq|].
  split; apply published_In; auto.
Qed.

Lemma duplicate_slugs_both_published_witness :
  exists posts,
    getPublishedBlogPosts same_slug_posts = Fulfilled posts
    /\ In (post "Hello World.md" jan15 false) posts
    /\ In (post "hello-world.md" jan20 false) posts.
Proof.
  apply (duplicate_slugs_both_published same_slug_posts);
    vm_compute; auto.
Defined.

(** C2, as stated, fails: the two posts of [same_date_posts] have one date,
    and the output keeps [zebra.md] before [apple.md]. *)
Lemma identifier_tie_break_fails :
  Forall (fun p => draft (data p) = false) same_date_posts
  /\ getPublishedBlogPosts same_date_posts =
     Fulfilled [post "zebra.md" jan15 false; post "apple.md" jan15 false]
  /\ str_ltb (str "apple.md") (str "zebra.md") = true
  /\ ~ sortedWithIdentifierTieBreak same_date_posts.
Proof.
  split; [repeat constructor|]. split; [reflexivity|].
  split; [reflexivity|].
  intros (posts & Hp & Hs). rewrite getPublishedBlogPosts_eq in Hp.
  injection Hp as <-.
  change (sort byPublishDateDesc (List.filter isPublished same_date_posts))
    with same_date_posts in Hs.
  apply StronglySorted_inv in Hs as [_ Hx].
  apply Forall_inv in Hx. destruct Hx as [Hlt|[_ Hle]].
  - vm_compute in Hlt. discriminate Hlt.
  - vm_compute in Hle. discriminate Hle.
Qed.

(** C2 (as the code has it). For every collection, the assembled output
    holds the non-draft records sorted by [publishDate] descending (newest
    first), and the records of one [publishDate] keep the order they have
    in the collection. *)
Theorem published_sorted_stable (collection : list BlogPost) :
  exists posts,
    getPublishedBlogPosts collection = Fulfilled posts
    /\ Permutation posts (List.filter isPublished collection)
    /\ StronglySorted newestFirst posts
    /\ (forall d, List.filter (sameDate d) posts =
                  List.filter (sameDate d)
                    (List.filter isPublished collection)).
Proof.
  eexists. split; [apply getPublishedBlogPosts_eq|].
  split; [apply sort_perm|]. split; [apply published_sorted|].
  intros d. apply published_stable.
Qed.

(** Posts of 15, 20 and 25 January 2024 come out as 25, 20, 15. *)
Example three_posts_newest_first :
  getPublishedBlogPosts three_posts =
  Fulfilled [post "third.md" jan25 false; post "second.md" jan20 false;
             post "first.md" jan15 false].
Proof. reflexivity. Qed.

(** ** The schema *)

Lemma z_string_fail p v :
  (forall s, v <> VString s) ->
  z_string p v = fail (invalid_type t_string (getParsedType v)) p.
Proof.
  destruct v; try reflexivity. intros H. now destruct (H s).
Qed.


(** ** The loader *)








(** * Further properties of the utility module *)

(** ** Reading time *)

Section WordCount.

Local Arguments isWhiteSpace : simpl never.

Lemma countWords_from_bound s :
  (2 * countWords_from true s <= length s)%nat
  /\ (2 * countWords_from false s <= S (length s))%nat.
Proof.
  induction s as [|c s [IH1 IH2]]; cbn [countWords_from length]; [lia|].
  destruct (isWhiteSpace c); lia.
Qed.

Lemma countWords_from_take b n s :
  (countWords_from b (take n s) <= countWords_from b s)%nat.
Proof.
  revert b n. induction s as [|c s IH]; intros b [|n];
    cbn [take firstn countWords_from]; try lia.
  destruct (isWhiteSpace c).
  - apply IH.
  - specialize (IH true n). lia.
Qed.

End WordCount.

Lemma ceil_div_mono a b : 0 <= a <= b -> ceil_div a 200 <= ceil_div b 200.
Proof. intros H. unfold ceil_div. apply Z.div_le_mono; lia. Qed.

Lemma blog_calculateReadingTime_eq body :
  Blog.calculateReadingTime body =
  ceil_div (Z.max 1 (Z.of_nat (countWords body))) 200.
Proof.
  unfold Blog.calculateReadingTime. rewrite split_trim_length.
  now rewrite Nat2Z.inj_max.
Qed.

(** X1. Whatever the length of the body, [calculateReadingTime] of the
    utility module is at most 250: the 100000 characters that count hold at
    most 50000 words.  The bound is reached by 50000 one-letter words. *)
Theorem calculateReadingTime_upper_bound :
  (forall body : jsstring, Utils.calculateReadingTime body <= 250)
  /\ Utils.calculateReadingTime short_word_body = 250.
Proof.
  split.
  - intros body. rewrite calculateReadingTime_words.
    set (t := take (Z.to_nat 100000) body).
    assert (Hlen : (length t <= Z.to_nat 100000)%nat)
      by (unfold t; rewrite length_take; lia).
    destruct (countWords_from_bound t) as [_ Hw]. fold (countWords t) in Hw.
    assert (Hc : ceil_div (Z.max 1 (Z.of_nat (countWords t))) 200 <= 250).
    { unfold ceil_div. apply Z.lt_succ_r, Z.div_lt_upper_bound; lia. }
    lia.
  - rewrite calculateReadingTime_words.
    assert (Hcount :
              Z.of_nat (countWords (take (Z.to_nat 100000) short_word_body))
              = 50000) by (vm_compute; reflexivity).
    rewrite Hcount. reflexivity.
Qed.

(** X2. [calculateReadingTime] of [src/utils/blog.ts] has no explicit
    minimum, yet it is at least 1 for every body, the empty and the blank one
    too, because [split] gives one piece for them; it is the number of words
    of the whole body over 200, rounded up, and 1 when there is no word. *)
Theorem blog_calculateReadingTime_words :
  forall body : jsstring,
    1 <= Blog.calculateReadingTime body
    /\ Blog.calculateReadingTime body =
       Z.max 1 ((Z.of_nat (countWords body) + 199) / 200).
Proof.
  intros body. rewrite blog_calculateReadingTime_eq. unfold ceil_div.
  set (w := Z.of_nat (countWords body)). assert (0 <= w) by (unfold w; lia).
  destruct (Z.eq_dec w 0) as [->|Hw]; [split; reflexivity|].
  rewrite (Z.max_r 1 w) by lia. replace (w + 200 - 1) with (w + 199) by lia.
  assert (1 <= (w + 199) / 200) by (apply Z.div_le_lower_bound; lia).
  lia.
Qed.

(** X3. For every body, of any length, the estimate of [src/utils/blog.ts]
    is never below the estimate of the utility module: cutting the body to
    100000 characters can only lose words. *)
Theorem blog_calculateReadingTime_ge_utils :
  forall body : jsstring,
    Utils.calculateReadingTime body <= Blog.calculateReadingTime body.
Proof.
  intros body. rewrite calculateReadingTime_words, blog_calculateReadingTime_eq.
  pose proof (countWords_from_take false (Z.to_nat 100000) body) as Hle.
  fold (countWords (take (Z.to_nat 100000) body)) in Hle.
  fold (countWords body) in Hle.
  set (w := Z.of_nat (countWords (take (Z.to_nat 100000) body))) in *.
  set (W := Z.of_nat (countWords body)) in *.
  assert (Hm : ceil_div (Z.max 1 w) 200 <= ceil_div (Z.max 1 W) 200)
    by (apply ceil_div_mono; lia).
  assert (1 <= ceil_div (Z.max 1 W) 200)
    by (unfold ceil_div; apply Z.div_le_lower_bound; lia).
  lia.
Qed.

(** X4. A body of [n] space-separated words that fits in 100000 characters
    gives [n / 200] rounded up, and 1 for no word at all. *)
Theorem calculateReadingTime_n_words (words : list jsstring) :
  forallb isWord words = true ->
  Z.of_nat (length (join (str " ") words)) <= 100000 ->
  Utils.calculateReadingTime (join (str " ") words) =
  Z.max 1 ((Z.of_nat (length words) + 199) / 200).
Proof.
  intros Hws Hsize. rewrite calculateReadingTime_ref. unfold readingTime_ref.
  rewrite take_ge by lia. rewrite countWords_join.
  - destruct (Z.ltb_spec ((Z.of_nat (length words) + 199) / 200) 1); lia.
  - apply Forall_forall. intros w Hw.
    rewrite forallb_forall in Hws. now apply Hws.
Qed.

Lemma calculateReadingTime_n_words_witness :
  Utils.calculateReadingTime (str "static sites are fast") = 1.
Proof.
  apply (calculateReadingTime_n_words
           [str "static"; str "sites"; str "are"; str "fast"]).
  - reflexivity.
  - vm_compute. discriminate.
Defined.

(** ** Excerpts *)

Lemma In_drop {A} (x : A) n l : In x (drop n l) -> In x l.
Proof.
  revert n. induction l as [|y l IH]; intros [|n]; simpl; try tauto.
  intros H. right. eauto.
Qed.

Lemma In_slice {A} (x : A) l a b : In x (slice l a b) -> In x l.
Proof. unfold slice. intros H%In_take%In_drop. exact H. Qed.

Lemma In_trimStart x s : In x (trimStart s) -> In x s.
Proof.
  induction s as [|c s IH]; simpl; [tauto|].
  destruct (isWhiteSpace c); simpl; tauto.
Qed.

Lemma In_trim x s : In x (trim s) -> In x s.
Proof.
  unfold trim, trimEnd. intros H%in_rev%In_trimStart%in_rev%In_trimStart.
  exact H.
Qed.

Lemma generateExcerpt_chars content maxLength c :
  In c (generateExcerpt content maxLength) -> isExcerptChar c = true.
Proof.
  unfold generateExcerpt.
  set (plainText := trim (List.filter isExcerptChar (stripTags content))).
  assert (Hplain : forall x, In x plainText -> isExcerptChar x = true).
  { intros x H%In_trim. now apply filter_In in H. }
  assert (Hdots : forall x, In x ellipsis -> isExcerptChar x = true).
  { intros x [<-|[<-|[<-|[]]]]; reflexivity. }
  destruct (Z.of_nat (length plainText) <=? maxLength); [apply Hplain|].
  destruct (0 <? lastIndexOf (slice plainText 0 maxLength) " ");
    intros [H|H]%in_app_iff; auto.
  - apply Hplain. now apply In_slice, In_slice in H.
  - apply Hplain. now apply In_slice in H.
Qed.

Lemma isExcerptChar_not_markup c :
  isExcerptChar c = true -> isMarkupChar c = false.
Proof. ascii_cases c. Qed.

(** X5. For every content and every limit [maxLength >= 0], the excerpt is at
    most [maxLength + 3] characters long: the limit and the ellipsis. *)
Theorem generateExcerpt_length_bound (content : jsstring) (maxLength : Z) :
  0 <= maxLength ->
  Z.of_nat (length (generateExcerpt content maxLength)) <= maxLength + 3.
Proof. apply generateExcerpt_length. Qed.

Lemma generateExcerpt_length_bound_witness :
  Z.of_nat (length (generateExcerpt (str "Static sites are fast and simple")
                      20)) <= 20 + 3.
Proof.
  apply (generateExcerpt_length_bound
           (str "Static sites are fast and simple") 20).
  lia.
Defined.

(** X6. Whatever the content and the limit, an excerpt holds only word
    characters, white space and [. , ! ? -]; so it holds no [<], [>], [&] or
    quote, whether the tags of the content were well formed or not. *)
Theorem generateExcerpt_alphabet :
  forall (content : jsstring) (maxLength : Z),
    forallb isExcerptChar (generateExcerpt content maxLength) = true
    /\ existsb isMarkupChar (generateExcerpt content maxLength) = false.
Proof.
  intros content maxLength. split.
  - apply forallb_forall. intros c. apply generateExcerpt_chars.
  - destruct (existsb isMarkupChar (generateExcerpt content maxLength)) eqn:E;
      [|reflexivity].
    apply existsb_exists in E as (c & Hc & Hm).
    apply generateExcerpt_chars, isExcerptChar_not_markup in Hc. congruence.
Qed.

(** The last occurrence: none comes after the index [lastIndexOf] gives. *)
Lemma lastIndexOf_from_last c s i found j :
  (j < length s)%nat -> nth j s c = c -> found <= i ->
  i + Z.of_nat j <= lastIndexOf_from c s i found.
Proof.
  revert i found j. induction s as [|x s IH]; intros i found j Hj Hc Hf;
    [simpl in Hj; lia|].
  cbn [lastIndexOf_from]. destruct j as [|j].
  - simpl in Hc. subst x. rewrite Ascii.eqb_refl.
    destruct (lastIndexOf_from_spec c s (i + 1) i) as [->|[H _]]; lia.
  - simpl in Hj, Hc.
    assert (i + 1 + Z.of_nat j
            <= lastIndexOf_from c s (i + 1)
                 (if Ascii.eqb x c then i else found)).
    { apply IH; [lia|exact Hc|]. destruct (Ascii.eqb x c); lia. }
    lia.
Qed.

Lemma lastIndexOf_last s c j :
  (j < length s)%nat -> nth j s c = c -> Z.of_nat j <= lastIndexOf s c.
Proof.
  intros Hj Hc. unfold lastIndexOf.
  pose proof (lastIndexOf_from_last c s 0 (-1) j Hj Hc). lia.
Qed.

(** X7. When the cleaned text is longer than the limit and its first
    [maxLength] characters hold a space after the first character, the
    excerpt is the text in front of the last such space, then the ellipsis:
    it ends where a word ends.  With no such space the excerpt is the first
    [maxLength] characters and the ellipsis. *)
Theorem generateExcerpt_last_space (content : jsstring) (maxLength : Z) :
  let plainText := trim (List.filter isExcerptChar (stripTags content)) in
  let i := lastIndexOf (take (Z.to_nat maxLength) plainText) " " in
  0 <= maxLength < Z.of_nat (length plainText) ->
  (0 < i ->
     generateExcerpt content maxLength
     = take (Z.to_nat i) plainText ++ str "..."
     /\ nth (Z.to_nat i) plainText " "%char = " "%char
     /\ i < maxLength
     /\ forall j, (Z.to_nat i < j < Z.to_nat maxLength)%nat ->
                  nth j plainText " "%char <> " "%char)
  /\ (i <= 0 ->
      generateExcerpt content maxLength
      = take (Z.to_nat maxLength) plainText ++ str "...").
Proof.
  intros plainText i Hmax. split.
  - intros Hi.
    destruct (generateExcerpt_cut_at_space content maxLength Hmax Hi)
      as (He & Hn & Hlt).
    split; [exact He|]. split; [exact Hn|]. split; [exact Hlt|].
    intros j Hj Hc.
    assert (Hj' : (j < length (take (Z.to_nat maxLength) plainText))%nat)
      by (rewrite length_take; lia).
    pose proof (lastIndexOf_last (take (Z.to_nat maxLength) plainText) " " j
                  Hj') as Hlast.
    fold i in Hlast.
    enough (Z.of_nat j <= i) by lia. apply Hlast.
    rewrite <- Hc at 2.
    rewrite <- (take_drop (Z.to_nat maxLength) plainText) at 2.
    rewrite app_nth1 by exact Hj'. reflexivity.
  - intros Hi. unfold generateExcerpt. fold plainText.
    destruct (Z.leb_spec (Z.of_nat (length plainText)) maxLength) as [H|_];
      [lia|].
    rewrite (slice_0 plainText) by lia. fold i.
    destruct (Z.ltb_spec 0 i) as [H|_]; [lia|]. reflexivity.
Qed.

Lemma generateExcerpt_last_space_witness :
  generateExcerpt (str "Static sites are fast and simple") 20
  = str "Static sites are...".
Proof.
  destruct (generateExcerpt_last_space
              (str "Static sites are fast and simple") 20) as [H _].
  - vm_compute. split; [discriminate|reflexivity].
  - destruct H as (He & _); [reflexivity|]. rewrite He. reflexivity.
Defined.

(** ** Tags in the content *)

Section StripTags.

Local Arguments isChar : simpl never.

Lemma stripTags_from_existsb P b s :
  existsb P (stripTags_from b s) = true -> existsb P s = true.
Proof.
  revert b. induction s as [|c s IH]; intros b; [auto|].
  cbn [stripTags_from existsb]. destruct b.
  - destruct (isChar ">" c); intros H%IH; rewrite H; apply orb_true_r.
  - destruct (isChar "<" c && existsb (isChar ">") s).
    + intros H%IH. rewrite H. apply orb_true_r.
    + cbn [existsb]. intros [H|H%IH]%orb_prop; rewrite H;
        [reflexivity|apply orb_true_r].
Qed.

Lemma stripTags_from_hasTag b s : hasTag (stripTags_from b s) = false.
Proof.
  revert b. induction s as [|c s IH]; intros b; [destruct b; reflexivity|].
  cbn [stripTags_from]. destruct b.
  - destruct (isChar ">" c); apply IH.
  - destruct (isChar "<" c) eqn:Ec; cbn [andb].
    + destruct (existsb (isChar ">") s) eqn:Eg; [apply IH|].
      cbn [hasTag]. rewrite IH, orb_false_r.
      destruct (existsb (isChar ">") (stripTags_from false s)) eqn:E;
        [|apply andb_false_r].
      apply stripTags_from_existsb in E. congruence.
    + cbn [hasTag]. now rewrite Ec, IH.
Qed.

Lemma stripTags_from_id s : hasTag s = false -> stripTags_from false s = s.
Proof.
  induction s as [|c s IH]; [reflexivity|].
  cbn [hasTag stripTags_from]. intros [H1 H2]%orb_false_elim.
  rewrite H1, IH by exact H2. reflexivity.
Qed.

End StripTags.

(** X8. After [replace(/<[^>]*>/g, '')] no [<] of the text has a [>]
    after it: no tag is left, also from nested or overlapping brackets.
    Text with no tag is returned as it is, so stripping twice is stripping
    once. *)
Theorem stripTags_no_tag_left :
  (forall s : jsstring, hasTag (stripTags s) = false)
  /\ (forall s : jsstring, hasTag s = false -> stripTags s = s)
  /\ (forall s : jsstring, stripTags (stripTags s) = stripTags s).
Proof.
  split; [|split].
  - intros s. apply stripTags_from_hasTag.
  - intros s. apply stripTags_from_id.
  - intros s. apply stripTags_from_id, stripTags_from_hasTag.
Qed.

Lemma stripTags_no_tag_left_witness :
  stripTags (str "a < b and no closing bracket") =
  str "a < b and no closing bracket".
Proof.
  apply (proj1 (proj2 stripTags_no_tag_left)). reflexivity.
Defined.

(** ** Slugs *)

Lemma toLowerCase_char_idem c :
  toLowerCase_char (toLowerCase_char c) = toLowerCase_char c.
Proof. ascii_cases c. Qed.

Lemma toLowerCase_idem s : toLowerCase (toLowerCase s) = toLowerCase s.
Proof.
  unfold toLowerCase. rewrite map_map. apply map_ext.
  intros c. apply toLowerCase_char_idem.
Qed.

Lemma hyphen_not_alnum c : isChar "-" c = true -> isAlnumLower c = false.
Proof. ascii_cases c. Qed.

Lemma not_slug_not_alnum c : isSlugChar c = false -> isAlnumLower c = false.
Proof. ascii_cases c. Qed.

Section SlugContent.

Local Arguments isChar : simpl never.
Local Arguments isSlugChar : simpl never.
Local Arguments isAlnumLower : simpl never.

Lemma replaceNonSlug_alnum s :
  List.filter isAlnumLower (replaceNonSlug s) = List.filter isAlnumLower s.
Proof.
  unfold replaceNonSlug. induction s as [|c s IH]; [reflexivity|].
  cbn [map List.filter]. rewrite IH.
  destruct (isSlugChar c) eqn:E; [reflexivity|].
  rewrite (not_slug_not_alnum c E). reflexivity.
Qed.

Lemma collapseHyphens_alnum s :
  List.filter isAlnumLower (collapseHyphens s) = List.filter isAlnumLower s.
Proof.
  induction s as [|c s IH]; [reflexivity|].
  rewrite collapseHyphens_cons. cbn [List.filter].
  destruct (isChar "-" c) eqn:E; cbn [andb].
  - rewrite (hyphen_not_alnum c E).
    destruct (startsWithHyphen s); [exact IH|].
    cbn [List.filter]. now rewrite (hyphen_not_alnum c E).
  - cbn [List.filter]. now rewrite IH.
Qed.

Lemma dropLeadingHyphen_alnum s :
  List.filter isAlnumLower (dropLeadingHyphen s) = List.filter isAlnumLower s.
Proof.
  destruct s as [|c s]; [reflexivity|]. cbn [dropLeadingHyphen List.filter].
  destruct (isChar "-" c) eqn:E; [|reflexivity].
  now rewrite (hyphen_not_alnum c E).
Qed.

Lemma dropTrailingHyphen_alnum s :
  List.filter isAlnumLower (dropTrailingHyphen s) = List.filter isAlnumLower s.
Proof.
  induction s as [|c s IH]; [reflexivity|]. rewrite dropTrailingHyphen_cons.
  destruct s as [|c' s].
  - cbn [List.filter]. destruct (isChar "-" c) eqn:E; [|reflexivity].
    now rewrite (hyphen_not_alnum c E).
  - cbn [List.filter] in *. now rewrite IH.
Qed.

Lemma sanitizeSlug_alnum s :
  List.filter isAlnumLower (sanitizeSlug s)
  = List.filter isAlnumLower (toLowerCase s).
Proof.
  unfold sanitizeSlug, stripEdgeHyphens.
  now rewrite dropTrailingHyphen_alnum, dropLeadingHyphen_alnum,
    collapseHyphens_alnum, replaceNonSlug_alnum.
Qed.

Lemma canonicalSlug_no_alnum_nil s :
  canonicalSlug s = true -> List.filter isAlnumLower s = [] -> s = [].
Proof.
  unfold canonicalSlug.
  intros [[[Ha _]%andb_prop Hs]%andb_prop _]%andb_prop Hf.
  destruct s as [|c s]; [reflexivity|].
  cbn [forallb startsWithHyphen List.filter] in *.
  apply andb_prop in Ha as [Hc _]. apply negb_true_iff in Hs.
  rewrite (slug_not_hyphen_alnum c Hc Hs) in Hf. discriminate Hf.
Qed.

Lemma collapseHyphens_length s :
  (length (collapseHyphens s) <= length s)%nat.
Proof.
  induction s as [|c s IH]; [reflexivity|]. rewrite collapseHyphens_cons.
  destruct (isChar "-" c && startsWithHyphen s); cbn [length]; lia.
Qed.

Lemma dropLeadingHyphen_length s :
  (length (dropLeadingHyphen s) <= length s)%nat.
Proof.
  destruct s as [|c s]; [reflexivity|]. cbn [dropLeadingHyphen].
  destruct (isChar "-" c); cbn [length]; lia.
Qed.

End SlugContent.

(** X9. [sanitizeSlug] leaves a string as it is exactly when the string is
    a canonical slug already: only [a-z0-9-], no hyphen at either end, no two
    hyphens in a row. *)
Theorem sanitizeSlug_fixed_iff_canonical :
  forall s : jsstring, sanitizeSlug s = s <-> canonicalSlug s = true.
Proof.
  intros s. split.
  - intros <-. apply sanitizeSlug_canonical.
  - apply canonicalSlug_fixed.
Qed.

(** X10. The slug keeps the letters [a-z] and the digits of the lowercased
    input, all of them and in their order; every other character turns into
    a hyphen or goes.  So the slug is empty exactly when the lowercased
    input has no letter [a-z] and no digit. *)
Theorem sanitizeSlug_keeps_alnum :
  forall s : jsstring,
    List.filter isAlnumLower (sanitizeSlug s)
    = List.filter isAlnumLower (toLowerCase s)
    /\ (sanitizeSlug s = [] <-> List.filter isAlnumLower (toLowerCase s) = []).
Proof.
  intros s. split; [apply sanitizeSlug_alnum|]. split.
  - intros H. now rewrite <- sanitizeSlug_alnum, H.
  - intros H. apply canonicalSlug_no_alnum_nil.
    + apply sanitizeSlug_canonical.
    + now rewrite sanitizeSlug_alnum.
Qed.

(** X11. Letter case does not tell slugs apart: two strings with the same
    lowercase form have the same slug, and so have a string and its
    lowercase form. *)
Theorem sanitizeSlug_case_insensitive :
  (forall s : jsstring, sanitizeSlug (toLowerCase s) = sanitizeSlug s)
  /\ (forall a b : jsstring,
        toLowerCase a = toLowerCase b -> sanitizeSlug a = sanitizeSlug b).
Proof.
  split.
  - intros s. unfold sanitizeSlug. now rewrite toLowerCase_idem.
  - intros a b H. unfold sanitizeSlug. now rewrite H.
Qed.

Lemma sanitizeSlug_case_insensitive_witness :
  sanitizeSlug (str "Astro-Guide") = sanitizeSlug (str "astro-GUIDE").
Proof.
  apply (proj2 sanitizeSlug_case_insensitive). reflexivity.
Defined.

(** X12. A slug is never longer than the lowercased string it is made
    from: after [toLowerCase], characters are replaced one for one or
    dropped, never added.  ([toLowerCase] itself can give a longer string
    than its argument, as for U+0130, so the bound is on the lowercased
    string.) *)
Theorem sanitizeSlug_length :
  forall s : jsstring,
    (length (sanitizeSlug s) <= length (toLowerCase s))%nat.
Proof.
  intros s. unfold sanitizeSlug, stripEdgeHyphens, dropTrailingHyphen.
  set (l := toLowerCase s).
  set (t := collapseHyphens (replaceNonSlug l)).
  assert (Ht : (length t <= length l)%nat).
  { unfold t. etransitivity; [apply collapseHyphens_length|].
    unfold replaceNonSlug. now rewrite length_map. }
  rewrite length_rev.
  pose proof (dropLeadingHyphen_length (rev (dropLeadingHyphen t))) as H1.
  rewrite length_rev in H1.
  pose proof (dropLeadingHyphen_length t). lia.
Qed.

(** ** Tags *)

Lemma isWhiteSpace_lower c :
  isWhiteSpace (toLowerCase_char c) = isWhiteSpace c.
Proof. ascii_cases c. Qed.

Section TagShape.

Local Arguments isWhiteSpace : simpl never.

Lemma startsWithSpace_lower s :
  startsWithSpace (toLowerCase s) = startsWithSpace s.
Proof. destruct s; [reflexivity|]. apply isWhiteSpace_lower. Qed.

Lemma endsWithSpace_lower s :
  endsWithSpace (toLowerCase s) = endsWithSpace s.
Proof.
  unfold toLowerCase. induction s as [|c s IH]; [reflexivity|].
  cbn [map endsWithSpace]. destruct s as [|c' s].
  - apply isWhiteSpace_lower.
  - exact IH.
Qed.

Lemma trimStart_id s : startsWithSpace s = false -> trimStart s = s.
Proof. destruct s; simpl; [auto|]. now intros ->. Qed.

Lemma trimEnd_id s : endsWithSpace s = false -> trimEnd s = s.
Proof.
  induction s as [|c s IH]; [reflexivity|]. rewrite trimEnd_cons.
  cbn [endsWithSpace]. destruct s as [|c' s].
  - intros ->. reflexivity.
  - intros H. rewrite (IH H). reflexivity.
Qed.

Lemma trim_id s :
  startsWithSpace s = false -> endsWithSpace s = false -> trim s = s.
Proof.
  intros Hs He. unfold trim. rewrite (trimStart_id s Hs). now apply trimEnd_id.
Qed.

Lemma trim_lower_trim s : trim (toLowerCase (trim s)) = toLowerCase (trim s).
Proof.
  destruct (trim_trimmed s) as [Hs He].
  apply trim_id; [now rewrite startsWithSpace_lower|
                  now rewrite endsWithSpace_lower].
Qed.

End TagShape.

Lemma normalizeTag_ref_string s :
  normalizeTag_ref (VString s) =
  if tagPattern (toLowerCase (trim s)) then Some (toLowerCase (trim s))
  else None.
Proof.
  unfold normalizeTag_ref. destruct (trim s) as [|c u]; reflexivity.
Qed.

(** What [normalizeTag_ref] gives is its own normal form. *)
Lemma normalizeTag_ref_shape v t :
  normalizeTag_ref v = Some t ->
  tagPattern t = true /\ trim t = t /\ toLowerCase t = t
  /\ normalizeTag_ref (VString t) = Some t.
Proof.
  destruct v; try discriminate. rewrite normalizeTag_ref_string.
  pose proof (trim_lower_trim s) as Ht.
  pose proof (toLowerCase_idem (trim s)) as Hl.
  destruct (tagPattern (toLowerCase (trim s))) eqn:Ep; [|discriminate].
  intros [= <-]. split; [exact Ep|]. split; [exact Ht|]. split; [exact Hl|].
  now rewrite normalizeTag_ref_string, Ht, Hl, Ep.
Qed.

Lemma omap_normalized l :
  Forall (fun t => normalizeTag_ref (VString t) = Some t) l ->
  omap normalizeTag_ref (map VString l) = l.
Proof.
  induction 1 as [|t l Ht Hl IH]; [reflexivity|].
  cbn [map omap list_omap]. fold (omap normalizeTag_ref (map VString l)).
  now rewrite Ht, IH.
Qed.

Lemma sanitizeTags_ref_Forall (P : jsstring -> Prop) tags :
  (forall v t, normalizeTag_ref v = Some t -> P t) ->
  Forall P (sanitizeTags_ref tags).
Proof.
  intros HP. apply Forall_forall. intros t Ht.
  unfold sanitizeTags_ref in Ht. apply In_take, In_omap in Ht.
  destruct Ht as (v & _ & Hv). eauto.
Qed.

Lemma take_take_app {A} (n m : nat) (a b : list A) :
  (n <= m)%nat -> take n (take n a ++ take m b) = take n (a ++ b).
Proof.
  revert a m. induction n as [|n IH]; intros a m Hm; [reflexivity|].
  destruct a as [|x a].
  - cbn [take firstn app]. fold (take (S n) (take m b)).
    rewrite take_take. f_equal. lia.
  - cbn [take firstn app]. f_equal. apply IH. lia.
Qed.

(** X13. Every tag [sanitizeTags] returns is in normal form: it is not
    empty, holds only [a-z], digits, hyphens and white space, has no white
    space at either end and no capital letter.  There are never more than
    10 of them. *)
Theorem sanitizeTags_shape :
  forall tags : list value,
    (length (sanitizeTags tags) <= 10)%nat
    /\ Forall (fun t => tagPattern t = true /\ trim t = t
                        /\ toLowerCase t = t)
         (sanitizeTags tags).
Proof.
  intros tags. rewrite sanitizeTags_ref_eq. split.
  - unfold sanitizeTags_ref. rewrite length_take. lia.
  - apply sanitizeTags_ref_Forall. intros v t H.
    apply normalizeTag_ref_shape in H. tauto.
Qed.

(** X14. Normalizing tags twice is normalizing them once: the tags that
    [sanitizeTags] returns pass through it unchanged. *)
Theorem sanitizeTags_idempotent :
  forall tags : list value,
    sanitizeTags (map VString (sanitizeTags tags)) = sanitizeTags tags.
Proof.
  intros tags. rewrite !sanitizeTags_ref_eq.
  set (l := sanitizeTags_ref tags).
  assert (Hl : Forall (fun t => normalizeTag_ref (VString t) = Some t) l).
  { apply sanitizeTags_ref_Forall. intros v t H.
    now apply normalizeTag_ref_shape in H. }
  unfold sanitizeTags_ref at 1. rewrite (omap_normalized l Hl).
  apply take_ge. unfold l, sanitizeTags_ref. rewrite length_take. lia.
Qed.

(** X15. Tags can be normalized in batches: the tags of two sequences put
    together are the first 10 of the tags of the one followed by the tags of
    the other. *)
Theorem sanitizeTags_app :
  forall tags1 tags2 : list value,
    sanitizeTags (tags1 ++ tags2)
    = take 10 (sanitizeTags tags1 ++ sanitizeTags tags2).
Proof.
  intros tags1 tags2. rewrite !sanitizeTags_ref_eq. unfold sanitizeTags_ref.
  rewrite omap_app. symmetry. apply take_take_app. lia.
Qed.

(** * Further properties of [src/utils/blog.ts] *)

Lemma str_eqb_eq a b : str_eqb a b = true <-> a = b.
Proof.
  revert b. induction a as [|x a IH]; intros [|y b]; simpl;
    try (split; [discriminate|discriminate]); [tauto|].
  rewrite andb_true_iff, Ascii.eqb_eq, IH. split.
  - intros [-> ->]. reflexivity.
  - intros [= -> ->]. auto.
Qed.

Lemma str_eqb_refl a : str_eqb a a = true.
Proof. now apply str_eqb_eq. Qed.

Lemma getCollection_all collection :
  getCollection collection (fun _ => true) = collection.
Proof.
  unfold getCollection. induction collection as [|p l IH]; simpl; congruence.
Qed.

Lemma getBlogPostBySlug_eq collection s :
  getBlogPostBySlug collection s =
  Fulfilled (List.find (fun post => str_eqb (slug post) s) collection).
Proof. unfold getBlogPostBySlug. now rewrite getCollection_all. Qed.

(** [find] gives the first match. *)
Lemma find_first {A} (f : A -> bool) l x :
  List.find f l = Some x ->
  f x = true
  /\ exists l1 l2, l = l1 ++ x :: l2 /\ forall y, In y l1 -> f y = false.
Proof.
  induction l as [|y l IH]; [discriminate|]. cbn [List.find].
  destruct (f y) eqn:E.
  - intros [= ->]. split; [exact E|]. exists [], l. split; [reflexivity|].
    intros ? [].
  - intros H. destruct (IH H) as (Hx & l1 & l2 & -> & Hl1).
    split; [exact Hx|]. exists (y :: l1), l2. split; [reflexivity|].
    intros z [<-|Hz]; auto.
Qed.

Lemma find_unique {A B} (key : A -> B) (f : B -> B -> bool) l x :
  (forall a b, f a b = true <-> a = b) ->
  NoDup (map key l) -> In x l ->
  List.find (fun y => f (key y) (key x)) l = Some x.
Proof.
  intros Hf. induction l as [|y l IH]; [intros _ []|].
  cbn [map List.find]. intros Hnd Hin. apply NoDup_cons_iff in Hnd as [Hy Hnd].
  destruct Hin as [->|Hin].
  - now rewrite (proj2 (Hf (key x) (key x)) eq_refl).
  - destruct (f (key y) (key x)) eqn:E; [|now apply IH].
    apply Hf in E. destruct Hy. rewrite E. now apply in_map.
Qed.

(** X16. [getBlogPostBySlug] is fulfilled with [undefined] exactly when no
    entry of the collection has the slug; otherwise with the first entry, in
    collection order, that has it. *)
Theorem getBlogPostBySlug_first_match :
  forall (collection : list BlogPost) (s : jsstring),
    (getBlogPostBySlug collection s = Fulfilled None
     <-> forall p, In p collection -> slug p <> s)
    /\ (forall p, getBlogPostBySlug collection s = Fulfilled (Some p) ->
          slug p = s
          /\ exists earlier later,
               collection = earlier ++ p :: later
               /\ forall q, In q earlier -> slug q <> s).
Proof.
  intros collection s. rewrite getBlogPostBySlug_eq. split; [split|].
  - intros [= H] p Hp Hs.
    pose proof (find_none _ _ H p Hp) as Hn. cbn beta in Hn.
    rewrite (proj2 (str_eqb_eq _ _) Hs) in Hn. discriminate Hn.
  - intros H. f_equal.
    destruct (List.find (fun post => str_eqb (slug post) s) collection)
      as [p|] eqn:E; [|reflexivity].
    apply find_some in E as [Hp Hs]. apply str_eqb_eq in Hs.
    now destruct (H p Hp).
  - intros p [= H]. apply find_first in H as (Hs & l1 & l2 & -> & Hl1).
    apply str_eqb_eq in Hs. split; [exact Hs|]. exists l1, l2.
    split; [reflexivity|]. intros q Hq Hqs. specialize (Hl1 q Hq).
    cbn beta in Hl1. rewrite (proj2 (str_eqb_eq _ _) Hqs) in Hl1.
    discriminate Hl1.
Qed.

Lemma getBlogPostBySlug_first_match_witness :
  slug (post "wip.md" jan25 true) = str "wip-md".
Proof.
  apply (proj2 (getBlogPostBySlug_first_match draft_and_published
                  (str "wip-md"))).
  reflexivity.
Defined.

(** X17. When the slugs of a collection are pairwise distinct, looking an
    entry up by its own slug gives that entry back. *)
Theorem getBlogPostBySlug_round_trip
    (collection : list BlogPost) (p : BlogPost) :
  NoDup (map slug collection) -> In p collection ->
  getBlogPostBySlug collection (slug p) = Fulfilled (Some p).
Proof.
  intros Hnd Hp. rewrite getBlogPostBySlug_eq. f_equal.
  apply (find_unique slug str_eqb); auto. apply str_eqb_eq.
Qed.

Lemma slugs_distinct_draft_and_published :
  NoDup (map slug draft_and_published).
Proof.
  repeat constructor; simpl; intros H;
    repeat (destruct H as [H|H]; [discriminate H|]); exact H.
Qed.

Lemma getBlogPostBySlug_round_trip_witness :
  getBlogPostBySlug draft_and_published (str "second-md")
  = Fulfilled (Some (post "second.md" jan20 false)).
Proof.
  apply (getBlogPostBySlug_round_trip draft_and_published
           (post "second.md" jan20 false)).
  - exact slugs_distinct_draft_and_published.
  - simpl. auto.
Defined.

(** X18. The lookup does not filter drafts: an entry with [draft == true],
    which [getPublishedBlogPosts] leaves out, is still what
    [getBlogPostBySlug] returns for its slug (slugs pairwise distinct). *)
Theorem getBlogPostBySlug_finds_drafts
    (collection : list BlogPost) (p : BlogPost) :
  NoDup (map slug collection) -> In p collection -> draft (data p) = true ->
  getBlogPostBySlug collection (slug p) = Fulfilled (Some p)
  /\ exists posts,
       getPublishedBlogPosts collection = Fulfilled posts /\ ~ In p posts.
Proof.
  intros Hnd Hp Hd. split.
  - rewrite getBlogPostBySlug_eq. f_equal.
    apply (find_unique slug str_eqb); auto. apply str_eqb_eq.
  - eexists. split; [apply getPublishedBlogPosts_eq|].
    intros [_ H]%published_In. congruence.
Qed.

Lemma getBlogPostBySlug_finds_drafts_witness :
  getBlogPostBySlug draft_and_published (str "wip-md")
  = Fulfilled (Some (post "wip.md" jan25 true))
  /\ exists posts,
       getPublishedBlogPosts draft_and_published = Fulfilled posts
       /\ ~ In (post "wip.md" jan25 true) posts.
Proof.
  apply (getBlogPostBySlug_finds_drafts draft_and_published
           (post "wip.md" jan25 true)).
  - exact slugs_distinct_draft_and_published.
  - simpl. auto.
  - reflexivity.
Defined.

(** ** The assembled sequence *)

Section SortFixed.

Context {A : Type}.
Variable cmp : A -> A -> Z.

Lemma sort_sorted_id l : StronglySorted (before cmp) l -> sort cmp l = l.
Proof.
  induction 1 as [|x l Hs IH Hx]; [reflexivity|].
  cbn [sort foldr]. fold (sort cmp l). rewrite IH.
  destruct l as [|y l]; [reflexivity|]. cbn [insert].
  apply Forall_inv in Hx. unfold before in Hx.
  destruct (Z.leb_spec (cmp x y) 0); [reflexivity|lia].
Qed.

End SortFixed.

Lemma filter_all {A} (f : A -> bool) l :
  (forall x, In x l -> f x = true) -> List.filter f l = l.
Proof.
  induction l as [|x l IH]; [reflexivity|]. intros H. cbn [List.filter].
  rewrite (H x) by (simpl; auto). f_equal. apply IH. intros y Hy.
  apply H. simpl. auto.
Qed.

Lemma filter_Permutation' {A} (f : A -> bool) l1 l2 :
  Permutation l1 l2 -> Permutation (List.filter f l1) (List.filter f l2).
Proof.
  induction 1 as [|x l1 l2 _ IH|x y l|l1 l2 l3 _ IH1 _ IH2];
    cbn [List.filter].
  - constructor.
  - destruct (f x); [now constructor|exact IH].
  - destruct (f x), (f y); try reflexivity. apply perm_swap.
  - now rewrite IH1.
Qed.

Lemma published_sorted_before l :
  StronglySorted (before byPublishDateDesc) (sort byPublishDateDesc l).
Proof. apply sort_sorted; unfold before, byPublishDateDesc; intros; lia. Qed.

Lemma newestFirst_strict l :
  StronglySorted newestFirst l -> NoDup (map getTime l) ->
  StronglySorted strictlyNewer l.
Proof.
  induction 1 as [|x l Hs IH Hx]; [constructor|]. cbn [map].
  intros [Hn Hnd]%NoDup_cons_iff. constructor; [now apply IH|].
  apply Forall_forall. intros y Hy.
  rewrite Forall_forall in Hx. specialize (Hx y Hy).
  unfold newestFirst in Hx. unfold strictlyNewer.
  assert (getTime y <> getTime x).
  { intros E. apply Hn. rewrite <- E. now apply in_map. }
  lia.
Qed.

(** Two strictly sorted arrangements of the same elements are equal. *)
Lemma strictlyNewer_unique l1 l2 :
  StronglySorted strictlyNewer l1 -> StronglySorted strictlyNewer l2 ->
  Permutation l1 l2 -> l1 = l2.
Proof.
  intros H1. revert l2. induction H1 as [|x l1 Hs1 IH Hx]; intros l2 H2 Hp.
  - now apply Permutation_nil in Hp.
  - destruct H2 as [|y l2 Hs2 Hy].
    + symmetry in Hp. now apply Permutation_nil in Hp.
    + assert (Exy : x = y).
      { assert (Hin1 : In x (y :: l2))
          by (eapply Permutation_in; [exact Hp|simpl; auto]).
        assert (Hin2 : In y (x :: l1))
          by (eapply Permutation_in; [symmetry; exact Hp|simpl; auto]).
        destruct Hin1 as [->|Hin1]; [reflexivity|].
        destruct Hin2 as [->|Hin2]; [reflexivity|].
        rewrite Forall_forall in Hx, Hy.
        specialize (Hx y Hin2). specialize (Hy x Hin1).
        unfold strictlyNewer in *. lia. }
      subst y. f_equal. apply IH; [exact Hs2|].
      now apply Permutation_cons_inv in Hp.
Qed.

(** X19. Assembling the assembled sequence again changes nothing: it holds
    no draft and is in order already. *)
Theorem getPublishedBlogPosts_idempotent
    (collection posts : list BlogPost) :
  getPublishedBlogPosts collection = Fulfilled posts ->
  getPublishedBlogPosts posts = Fulfilled posts.
Proof.
  rewrite !getPublishedBlogPosts_eq. intros [= <-]. f_equal.
  rewrite filter_all.
  - apply sort_sorted_id, published_sorted_before.
  - intros p [_ H]%published_In. unfold isPublished. now rewrite H.
Qed.

Lemma getPublishedBlogPosts_idempotent_witness :
  getPublishedBlogPosts
    [post "second.md" jan20 false; post "first.md" jan15 false]
  = Fulfilled [post "second.md" jan20 false; post "first.md" jan15 false].
Proof.
  apply (getPublishedBlogPosts_idempotent draft_and_published).
  reflexivity.
Defined.

(** X20. When the published entries have pairwise distinct dates, the
    assembled sequence does not depend on the order of the collection: any
    rearrangement of the collection gives the same sequence. *)
Theorem getPublishedBlogPosts_order_independent
    (collection1 collection2 : list BlogPost) :
  Permutation collection1 collection2 ->
  NoDup (map getTime (List.filter isPublished collection1)) ->
  getPublishedBlogPosts collection1 = getPublishedBlogPosts collection2.
Proof.
  intros Hp Hnd. rewrite !getPublishedBlogPosts_eq. f_equal.
  set (l1 := List.filter isPublished collection1) in *.
  set (l2 := List.filter isPublished collection2).
  assert (Hp12 : Permutation l1 l2) by now apply filter_Permutation'.
  assert (Hs1 : Permutation (sort byPublishDateDesc l1) l1)
    by apply sort_perm.
  assert (Hs2 : Permutation (sort byPublishDateDesc l2) l2)
    by apply sort_perm.
  apply strictlyNewer_unique.
  - apply newestFirst_strict; [apply published_sorted|].
    eapply Permutation_NoDup; [|exact Hnd].
    apply Permutation_map. now symmetry.
  - apply newestFirst_strict; [apply published_sorted|].
    eapply Permutation_NoDup; [|exact Hnd].
    apply Permutation_map. rewrite Hs2. exact Hp12.
  - now rewrite Hs1, Hs2.
Qed.

Lemma getPublishedBlogPosts_order_independent_witness :
  getPublishedBlogPosts three_posts = getPublishedBlogPosts (rev three_posts).
Proof.
  apply getPublishedBlogPosts_order_independent.
  - apply Permutation_rev.
  - repeat constructor; simpl; intros H;
      repeat (destruct H as [H|H]; [discriminate H|]); exact H.
Defined.

(** * Further properties of the schema *)

Lemma z_string_Some p v s : snd (z_string p v) = Some s <-> v = VString s.
Proof. destruct v; simpl; split; congruence. Qed.

Lemma z_date_Some p v t : snd (z_date p v) = Some t <-> v = VDate (Some t).
Proof.
  destruct v as [| | | | |[t'|]|]; simpl; split; congruence.
Qed.

Lemma z_boolean_Some p v b : snd (z_boolean p v) = Some b <-> v = VBoolean b.
Proof. destruct v; simpl; split; congruence. Qed.

Lemma z_array_items_Some p i l r :
  snd (z_array_items z_string p i l) = Some r <-> l = map VString r.
Proof.
  revert i r. induction l as [|v l IH]; intros i r.
  - simpl. destruct r; simpl; split; congruence.
  - cbn [z_array_items].
    destruct (z_string (p ++ [Index i]) v) as [is1 r1] eqn:E1.
    destruct (z_array_items z_string p (S i) l) as [is2 r2] eqn:E2.
    pose proof (z_string_Some (p ++ [Index i]) v) as Hv. rewrite E1 in Hv.
    specialize (IH (S i)). rewrite E2 in IH. cbn [snd] in *.
    split.
    + destruct r1 as [a|]; [|discriminate].
      destruct r2 as [rest|]; [|discriminate].
      intros [= <-]. cbn [map].
      f_equal; [now apply Hv|now apply IH].
    + destruct r as [|b r]; [discriminate|]. cbn [map].
      intros [= Hb Hl]. apply Hv in Hb. apply IH in Hl.
      now rewrite Hb, Hl.
Qed.

Lemma z_tags_Some p v l :
  snd (z_default [] (z_array z_string) p v) = Some l <-> tagsFrom v l.
Proof.
  unfold tagsFrom, z_default, z_array.
  destruct v as [| | | | | |items]; cbn [snd ok fail];
    try (split; [discriminate|intros [[? _]|?]; discriminate]).
  - split; [intros [= <-]; auto|intros [[_ ->]|?]; [reflexivity|discriminate]].
  - rewrite z_array_items_Some. split.
    + intros ->. now right.
    + intros [[? _]|[= ->]]; [discriminate|reflexivity].
Qed.

Lemma z_image_Some p v o :
  snd (z_optional z_string p v) = Some o <-> imageFrom v o.
Proof.
  unfold imageFrom, z_optional.
  destruct v; cbn [snd ok fail z_string option_map];
    try (split; [discriminate|intros [[? _]|(? & ? & _)]; discriminate]).
  - split; [intros [= <-]; auto|
            intros [[_ ->]|(? & ? & _)]; [reflexivity|discriminate]].
  - split.
    + intros [= <-]. right. eauto.
    + intros [[? _]|(s' & [= ->] & ->)]; [discriminate|reflexivity].
Qed.

Lemma z_draft_Some p v b :
  snd (z_default false z_boolean p v) = Some b <-> draftFrom v b.
Proof.
  unfold draftFrom, z_default.
  destruct v; cbn [snd ok fail z_boolean];
    try (split; [discriminate|intros [[? _]|?]; discriminate]).
  - split; [intros [= <-]; auto|intros [[_ ->]|?]; [reflexivity|discriminate]].
  - split; [intros [= <-]; auto|intros [[? _]|[= ->]];
                                 [discriminate|reflexivity]].
Qed.

(** Validation succeeds exactly when every field parser gives a value. *)
Lemma blogSchema_inr raw d :
  blogSchema raw = inr d <->
  snd (field z_string raw "title") = Some (title d)
  /\ snd (field z_string raw "description") = Some (description d)
  /\ snd (field z_date raw "publishDate") = Some (publishDate d)
  /\ snd (field z_string raw "author") = Some (author d)
  /\ snd (field (z_default [] (z_array z_string)) raw "tags") = Some (tags d)
  /\ snd (field (z_optional z_string) raw "image") = Some (image d)
  /\ snd (field (z_default false z_boolean) raw "draft") = Some (draft d).
Proof.
  unfold blogSchema.
  destruct (field z_string raw "title") as [i1 r1].
  destruct (field z_string raw "description") as [i2 r2].
  destruct (field z_date raw "publishDate") as [i3 r3].
  destruct (field z_string raw "author") as [i4 r4].
  destruct (field (z_default [] (z_array z_string)) raw "tags") as [i5 r5].
  destruct (field (z_optional z_string) raw "image") as [i6 r6].
  destruct (field (z_default false z_boolean) raw "draft") as [i7 r7].
  cbn [snd]. destruct d as [dt dd dp da dtg dim ddr]. cbn.
  split.
  - destruct r1, r2, r3, r4, r5, r6, r7; try discriminate.
    intros [= -> -> -> -> -> -> ->]. repeat split.
  - intros (-> & -> & -> & -> & -> & -> & ->). reflexivity.
Qed.

(** X21. Validation succeeds exactly on well-typed frontmatter, and then
    returns the fields as they are given, nothing trimmed or converted, with
    [[]], no image and [false] for an absent [tags], [image] and [draft]:
    [title], [description] and [author] are strings, [publishDate] is a
    valid [Date], [tags] is absent or an array of strings, [image] absent or
    a string, [draft] absent or a boolean. *)
Theorem blogSchema_accepts_iff :
  forall (raw : gmap string value) (d : BlogData),
    blogSchema raw = inr d <->
    prop raw "title" = VString (title d)
    /\ prop raw "description" = VString (description d)
    /\ prop raw "publishDate" = VDate (Some (publishDate d))
    /\ prop raw "author" = VString (author d)
    /\ tagsFrom (prop raw "tags") (tags d)
    /\ imageFrom (prop raw "image") (image d)
    /\ draftFrom (prop raw "draft") (draft d).
Proof.
  intros raw d. rewrite blogSchema_inr. unfold field.
  now rewrite !z_string_Some, z_date_Some, z_tags_Some, z_image_Some,
    z_draft_Some.
Qed.

Lemma prop_insert_ne raw k v k' :
  k <> k' -> prop (<[k := v]> raw) k' = prop raw k'.
Proof. intros H. unfold prop. now rewrite lookup_insert_ne. Qed.

(** X22. A key the schema does not name is ignored: adding it to the
    frontmatter, with whatever value, changes neither the outcome nor the
    issues. *)
Theorem blogSchema_ignores_unknown
    (raw : gmap string value) (k : string) (v : value) :
  ~ In k schemaKeys -> blogSchema (<[k := v]> raw) = blogSchema raw.
Proof.
  intros Hk. unfold blogSchema, field.
  rewrite !prop_insert_ne; [reflexivity|..];
    intros ->; apply Hk; simpl; tauto.
Qed.

Lemma blogSchema_ignores_unknown_witness :
  blogSchema (<["layout" := VString (str "post")]> blank_title)
  = blogSchema blank_title.
Proof.
  apply blogSchema_ignores_unknown. simpl.
  intros H. repeat (destruct H as [H|H]; [discriminate H|]). exact H.
Defined.

Lemma z_date_fail p v :
  (forall t, v <> VDate (Some t)) ->
  exists c, z_date p v = fail c p /\ (c = invalid_date <-> v = VDate None).
Proof.
  intros H. destruct v as [| | | | |[t|]|]; cbn [z_date];
    try (eexists; split; [reflexivity|split; discriminate]).
  - now destruct (H t).
  - eexists. split; [reflexivity|]. split; reflexivity.
Qed.

(** X23. [publishDate] has to be a [Date] object with a valid time: for
    anything else, a date written as a string too, validation fails with an
    issue at [publishDate], which is [invalid_date] exactly for an invalid
    [Date] object and a type issue otherwise. *)
Theorem blogSchema_publishDate (raw : gmap string value) :
  (forall t, prop raw "publishDate" <> VDate (Some t)) ->
  exists issues i,
    blogSchema raw = inl issues /\ In i issues
    /\ Schema.path i = [Key "publishDate"]
    /\ (Schema.code i = invalid_date
        <-> prop raw "publishDate" = VDate None).
Proof.
  intros H. unfold blogSchema, field.
  destruct (z_date_fail [Key "publishDate"] _ H) as (c & -> & Hc).
  unfold fail.
  repeat match goal with
    | |- context [let '(_, _) := ?e in _] => destruct e as [? [?|]]
    end;
    (eexists _, {| Schema.code := c; Schema.path := [Key "publishDate"] |};
     split; [reflexivity|]; split; [|split; [reflexivity|exact Hc]];
     rewrite ?in_app_iff; simpl; tauto).
Qed.

Lemma blogSchema_publishDate_witness :
  exists issues i,
    blogSchema string_date = inl issues /\ In i issues
    /\ Schema.path i = [Key "publishDate"]
    /\ (Schema.code i = invalid_date
        <-> prop string_date "publishDate" = VDate None).
Proof.
  apply (blogSchema_publishDate string_date).
  intros t. vm_compute. discriminate.
Defined.

Lemma z_array_items_issue p i0 l j v :
  nth_error l j = Some v -> (forall s, v <> VString s) ->
  In {| Schema.code := invalid_type t_string (getParsedType v);
        Schema.path := p ++ [Index (i0 + j)] |}
     (fst (z_array_items z_string p i0 l))
  /\ snd (z_array_items z_string p i0 l) = None.
Proof.
  revert i0 j. induction l as [|x l IH]; intros i0 j Hj Hv;
    [destruct j; discriminate|].
  cbn [z_array_items].
  destruct (z_array_items z_string p (S i0) l) as [is2 r2] eqn:E2.
  destruct j as [|j].
  - injection Hj as ->. rewrite (z_string_fail _ _ Hv). unfold fail.
    cbn [fst snd]. rewrite Nat.add_0_r. split; [simpl; auto|reflexivity].
  - destruct (IH (S i0) j Hj Hv) as [Hin Hn]. rewrite E2 in Hin, Hn.
    cbn [fst snd] in Hin, Hn. subst r2.
    destruct (z_string (p ++ [Index i0]) x) as [is1 r1]. cbn [fst snd].
    replace (i0 + S j)%nat with (S i0 + j)%nat by lia.
    split; [apply in_or_app; now right|]. now destruct r1.
Qed.

(** X24. The elements of [tags] are not converted: when [tags] is an array
    and its element at index [j] is not a string, validation fails with a
    type issue at [tags], index [j]. *)
Theorem blogSchema_tags_element
    (raw : gmap string value) (items : list value) (j : nat) (v : value) :
  prop raw "tags" = VArray items ->
  nth_error items j = Some v ->
  (forall s, v <> VString s) ->
  exists issues,
    blogSchema raw = inl issues
    /\ In {| Schema.code := invalid_type t_string (getParsedType v);
             Schema.path := [Key "tags"; Index j] |} issues.
Proof.
  intros Ht Hj Hv. unfold blogSchema, field. rewrite Ht.
  cbn [z_default z_array].
  destruct (z_array_items_issue [Key "tags"] 0 items j v Hj Hv) as [Hin Hn].
  destruct (z_array_items z_string [Key "tags"] 0 items) as [is5 r5].
  cbn [fst snd] in Hin, Hn. subst r5. cbn [app Nat.add] in Hin.
  repeat match goal with
    | |- context [let '(_, _) := ?e in _] => destruct e as [? [?|]]
    end;
    (eexists; split; [reflexivity|]; rewrite ?in_app_iff; tauto).
Qed.

Lemma blogSchema_tags_element_witness :
  exists issues,
    blogSchema number_tag = inl issues
    /\ In {| Schema.code := invalid_type t_string t_number;
             Schema.path := [Key "tags"; Index 1] |} issues.
Proof.
  apply (blogSchema_tags_element number_tag
           [VString (str "astro"); VNumber 2024] 1 (VNumber 2024)).
  - vm_compute. reflexivity.
  - reflexivity.
  - discriminate.
Defined.

(** * The site configuration *)

Section SocialLinks.

Variable URL_parse : jsstring -> option Site.URL.

Lemma includes_In l x : Site.includes l x = true <-> In x l.
Proof.
  unfold Site.includes. rewrite existsb_exists. split.
  - intros (y & Hy & E). apply str_eqb_eq in E. now subst.
  - intros H. exists x. split; [exact H|apply str_eqb_refl].
Qed.

(** X25. Every link [getSanitizedSocialLinks] returns comes from an entry of
    the [social] configuration whose value is a non-empty string that
    parses as a URL with the protocol [http:] or [https:]; a value that does
    not parse, or has another protocol, gives no link.  At most four links
    are returned. *)
Theorem getSanitizedSocialLinks_http :
  forall config : Site.SiteConfig,
    Forall (fun link =>
              In (Site.platform link, Some (Site.link_url link))
                 (Site.entries (Site.social config))
              /\ Site.link_url link <> []
              /\ exists parsed,
                   URL_parse (Site.link_url link) = Some parsed
                   /\ (Site.protocol parsed = str "http:"
                       \/ Site.protocol parsed = str "https:"))
           (Site.getSanitizedSocialLinks URL_parse config)
    /\ (length (Site.getSanitizedSocialLinks URL_parse config) <= 4)%nat.
Proof.
  intros config. unfold Site.getSanitizedSocialLinks. split.
  - apply Forall_forall. intros link Hl. apply in_map_iff in Hl.
    destruct Hl as ([k v] & <- & Hin). apply filter_In in Hin as [Hin Hk].
    unfold Site.keepEntry in Hk. cbn [snd fst Site.toLink Site.platform
                                      Site.link_url] in *.
    destruct v as [u|]; [|discriminate]. apply andb_prop in Hk as [Hne Hv].
    split; [exact Hin|]. split.
    + intros ->. discriminate Hne.
    + unfold Site.isValidUrl in Hv.
      destruct (URL_parse u) as [parsed|]; [|discriminate].
      exists parsed. split; [reflexivity|].
      apply includes_In in Hv. simpl in Hv. intuition auto.
  - rewrite length_map.
    pose proof (filter_length_le (Site.keepEntry URL_parse)
                  (Site.entries (Site.social config))) as H.
    simpl in H. exact H.
Qed.

End SocialLinks.

(** * Core Web Vitals ratings *)

(** X26. For every metric, [getRating] is monotone: a larger value never
    gets a better rating.  NaN and positive infinity are rated poor,
    negative infinity good. *)
Theorem getRating_monotone (name : WebVitals.WebVitalName) :
  (forall q1 q2,
      QArith_base.Qle q1 q2 ->
      WebVitals.rank (WebVitals.getRating name (WebVitals.Finite q1))
      <= WebVitals.rank (WebVitals.getRating name (WebVitals.Finite q2)))
  /\ WebVitals.getRating name WebVitals.NaN = WebVitals.rating_poor
  /\ WebVitals.getRating name WebVitals.PosInfinity = WebVitals.rating_poor
  /\ WebVitals.getRating name WebVitals.NegInfinity = WebVitals.rating_good.
Proof.
  split; [|repeat split].
  intros q1 q2 Hq. unfold WebVitals.getRating, WebVitals.number_leb.
  cbv zeta.
  set (g := WebVitals.good (WebVitals.WEB_VITALS_THRESHOLDS name)).
  set (n := WebVitals.needsImprovement (WebVitals.WEB_VITALS_THRESHOLDS name)).
  destruct (QArith_base.Qle_bool q2 g) eqn:E2g.
  - apply QArith_base.Qle_bool_iff in E2g.
    assert (H : QArith_base.Qle_bool q1 g = true)
      by (apply QArith_base.Qle_bool_iff;
          now apply QArith_base.Qle_trans with q2).
    rewrite H. reflexivity.
  - destruct (QArith_base.Qle_bool q2 n) eqn:E2n.
    + apply QArith_base.Qle_bool_iff in E2n.
      assert (H : QArith_base.Qle_bool q1 n = true)
        by (apply QArith_base.Qle_bool_iff;
            now apply QArith_base.Qle_trans with q2).
      rewrite H. destruct (QArith_base.Qle_bool q1 g); simpl; lia.
    + destruct (QArith_base.Qle_bool q1 g), (QArith_base.Qle_bool q1 n);
        simpl; lia.
Qed.

Lemma getRating_monotone_witness :
  WebVitals.rank
    (WebVitals.getRating WebVitals.LCP
       (WebVitals.Finite (QArith_base.Qmake 1800 1)))
  <= WebVitals.rank
       (WebVitals.getRating WebVitals.LCP
          (WebVitals.Finite (QArith_base.Qmake 4200 1))).
Proof.
  apply (proj1 (getRating_monotone WebVitals.LCP)).
  apply QArith_base.Qle_bool_iff. reflexivity.
Defined.
